(** * school-of-prompt: the evidence-collection-and-adjudication engine

    A shallow embedding of [02_data_preparation/enrichment_pipeline.py]:
    the response cache, the quota governor, the gatherer calls, the
    maturity scorer, the adjudicator and the loop of the driver that feeds
    it, with the properties of the specification stated over them.

    Conventions of the embedding:
    - a Python value is a [pyval]; a [dict] with string keys is a [gmap] when
      only its contents matter and an association list in insertion order when
      the order does (the parameters of a request, a parsed JSON object);
    - a function that can let an exception escape returns a [result];
    - functions that read or write module globals, the cache directory or
      the clock take a [world] and return the next one;
    - a [float] is the rational number it denotes and arithmetic on floats is
      exact; an [int] that is printed as a float is first rounded to the
      nearest float, as [float(n)] does; [time.time()] reads the clock of the
      world and [time.sleep(d)] moves it on by exactly [d];
    - a cache file is what [json.load] makes of it, and [json.dump] followed
      by [json.load] gives the value back;
    - library functions of Python are modelled after their documentation:
      [hashlib.md5], [json.dumps], [str.lower], [str.encode]. *)

From Stdlib Require Import ZArith QArith Qround Lia Lqa Bool Ascii String List.
From Stdlib Require Import DecimalString.
From Stdlib.Strings Require Import Byte.
From stdpp Require Import base gmap strings list sorting.

Local Open Scope Z_scope.
Local Open Scope string_scope.

(** ** Python values

    Strings are sequences of code points below 256; a Python [float] is
    represented by the rational number it denotes (no NaN, no infinities),
    and an [int] by an integer. *)

#[warnings="-register-all"]
Inductive pyval : Type :=
  | PNone
  | PBool (b : bool)
  | PInt (z : Z)
  | PFloat (q : Q)
  | PStr (s : string)
  | PList (l : list pyval)
  | PDict (d : list (string * pyval)).

(** Exceptions that the modelled functions can let escape. *)
Inductive pyexn : Type :=
  | TypeError
  | AttributeError
  | KeyError
  | IndexError
  | UnicodeDecodeError
  | RecursionError
  | ValueError
  | OverflowError.

Inductive result (A : Type) : Type :=
  | Ok (a : A)
  | Raise (e : pyexn).
Arguments Ok {A} a.
Arguments Raise {A} e.

(** Sequencing of computations that may raise, written [x ← m; k]. *)
#[global] Instance result_ret : MRet result := @Ok.
#[global] Instance result_bind : MBind result := fun A B k m =>
  match m with
  | Ok a => k a
  | Raise x => Raise x
  end.

Definition Qeqb0 (q : Q) : bool := Z.eqb (Qnum q) 0.

(** [bool(v)]: the truth value Python gives to [v] in an [if]. *)
Definition truthy (v : pyval) : bool :=
  match v with
  | PNone => false
  | PBool b => b
  | PInt z => negb (Z.eqb z 0)
  | PFloat q => negb (Qeqb0 q)
  | PStr s => negb (String.eqb s "")
  | PList l => match l with [] => false | _ => true end
  | PDict d => match d with [] => false | _ => true end
  end.

(** The number a value denotes in arithmetic and comparisons; [bool] is a
    subclass of [int]. Other values raise [TypeError] there. *)
Definition as_number (v : pyval) : option Q :=
  match v with
  | PBool b => Some (if b then 1%Q else 0%Q)
  | PInt z => Some (inject_Z z)
  | PFloat q => Some q
  | _ => None
  end.

(** [v >= n] for an integer literal [n]. *)
Definition py_ge (v : pyval) (n : Z) : result bool :=
  match as_number v with
  | Some q => Ok (Qle_bool (inject_Z n) q)
  | None => Raise TypeError
  end.

(** [d.get(k)] and [d.get(k, default)] on a [dict] with string keys. *)
Definition dict_get (e : gmap string pyval) (k : string) : pyval :=
  default PNone (e !! k).

Definition dict_get_or (e : gmap string pyval) (k : string) (d : pyval) : pyval :=
  default d (e !! k).

(** ** Number formatting *)

Definition string_of_Z (z : Z) : string := NilZero.string_of_int (Z.to_int z).

(** Nearest integer, ties to even: the rounding of [format(x, '.1f')]. *)
Definition round_half_even (q : Q) : Z :=
  let f := Qfloor q in
  let r := (q - inject_Z f)%Q in
  match (r ?= 1 # 2)%Q with
  | Lt => f
  | Gt => f + 1
  | Eq => if Z.even f then f else f + 1
  end.

(** [format(x, '.1f')] for a float [x]: one digit after the point; a
    negative value keeps its sign even when it rounds to zero. *)
Definition float_1f (q : Q) : string :=
  let n := Z.abs (round_half_even (q * 10)) in
  ((if Qle_bool 0 q then "" else "-")
     ++ string_of_Z (n / 10) ++ "." ++ string_of_Z (n mod 10))%string.

(** The largest finite float, [sys.float_info.max], which is an integer. *)
Definition DBL_MAX : Z := (2 ^ 1024 - 2 ^ 971)%Z.

(** The float nearest to a non-negative integer: integers of up to 53 bits
    are floats themselves; a longer one keeps its 53 leading bits, rounded
    to nearest with ties to the even mantissa. *)
Definition nearest_double (n : Z) : Z :=
  let bits := (Z.log2 n + 1)%Z in
  if (bits <=? 53)%Z then n
  else
    let unit := (2 ^ (bits - 53))%Z in
    let mantissa := (n / unit)%Z in
    let rest := (n mod unit)%Z in
    let half := (2 ^ (bits - 54))%Z in
    if ((half <? rest)%Z || ((rest =? half)%Z && Z.odd mantissa))%bool
    then ((mantissa + 1) * unit)%Z
    else (mantissa * unit)%Z.

(** [float(n)] for an [int]: [OverflowError] when the nearest float would
    be [2 ** 1024] or more. *)
Definition float_of_int (z : Z) : result Q :=
  let r := nearest_double (Z.abs z) in
  if (2 ^ 1024 <=? r)%Z then Raise OverflowError
  else Ok (inject_Z (Z.sgn z * r)).

(** [f"{x:.1f}"]: an [int] (and a [bool], which is one) is converted to a
    float first; a string does not know the format code [f], and the other
    values accept no format specification at all. *)
Definition format_1f (x : pyval) : result string :=
  match x with
  | PFloat q => Ok (float_1f q)
  | PInt z => q ← float_of_int z; Ok (float_1f q)
  | PBool b => q ← float_of_int (if b then 1 else 0)%Z; Ok (float_1f q)
  | PStr _ => Raise ValueError
  | PNone | PList _ | PDict _ => Raise TypeError
  end.

(** ** Text

    [kw in text], [text.lower()], [text[:n]] and [sep.join(parts)]. *)

Fixpoint contains (kw text : string) : bool :=
  String.prefix kw text
  || match text with
     | EmptyString => false
     | String _ rest => contains kw rest
     end.

(** Lower case of a code point below 256: the letters A-Z and the Latin-1
    capitals U+00C0-U+00DE (the multiplication sign U+00D7 is no letter). *)
Definition lower_char (c : ascii) : ascii :=
  let n := N_of_ascii c in
  if ((65 <=? n) && (n <=? 90))%N
     || ((192 <=? n) && (n <=? 222) && negb (n =? 215))%N
  then ascii_of_N (n + 32) else c.

Fixpoint lower (s : string) : string :=
  match s with
  | EmptyString => EmptyString
  | String c rest => String (lower_char c) (lower rest)
  end.

Fixpoint take (n : nat) (s : string) : string :=
  match n, s with
  | S n', String c rest => String c (take n' rest)
  | _, _ => EmptyString
  end.

(** Whether a keyword is made of several words. *)
Fixpoint has_space (s : string) : bool :=
  match s with
  | EmptyString => false
  | String c rest => Ascii.eqb c " " || has_space rest
  end.

Fixpoint join (sep : string) (parts : list string) : string :=
  match parts with
  | [] => ""
  | [x] => x
  | x :: rest => x ++ sep ++ join sep rest
  end.

(** ** [hashlib.md5] (RFC 1321) on 32-bit words held in [Z] *)

Module MD5.

#[local] Open Scope Z_scope.

Definition mask32 : Z := 0xffffffff.
Definition add32 (x y : Z) : Z := Z.land (x + y) mask32.
Definition not32 (x : Z) : Z := Z.lxor x mask32.
Definition rotl32 (x : Z) (c : Z) : Z :=
  Z.land (Z.lor (Z.shiftl x c) (Z.shiftr x (32 - c))) mask32.

Definition shifts : list Z :=
  [ 7; 12; 17; 22; 7; 12; 17; 22; 7; 12; 17; 22; 7; 12; 17; 22;
    5; 9; 14; 20; 5; 9; 14; 20; 5; 9; 14; 20; 5; 9; 14; 20;
    4; 11; 16; 23; 4; 11; 16; 23; 4; 11; 16; 23; 4; 11; 16; 23;
    6; 10; 15; 21; 6; 10; 15; 21; 6; 10; 15; 21; 6; 10; 15; 21 ].

(** [K i = floor (2^32 * abs (sin (i + 1)))]. *)
Definition K : list Z :=
  [ 0xd76aa478; 0xe8c7b756; 0x242070db; 0xc1bdceee;
    0xf57c0faf; 0x4787c62a; 0xa8304613; 0xfd469501;
    0x698098d8; 0x8b44f7af; 0xffff5bb1; 0x895cd7be;
    0x6b901122; 0xfd987193; 0xa679438e; 0x49b40821;
    0xf61e2562; 0xc040b340; 0x265e5a51; 0xe9b6c7aa;
    0xd62f105d; 0x02441453; 0xd8a1e681; 0xe7d3fbc8;
    0x21e1cde6; 0xc33707d6; 0xf4d50d87; 0x455a14ed;
    0xa9e3e905; 0xfcefa3f8; 0x676f02d9; 0x8d2a4c8a;
    0xfffa3942; 0x8771f681; 0x6d9d6122; 0xfde5380c;
    0xa4beea44; 0x4bdecfa9; 0xf6bb4b60; 0xbebfbc70;
    0x289b7ec6; 0xeaa127fa; 0xd4ef3085; 0x04881d05;
    0xd9d4d039; 0xe6db99e5; 0x1fa27cf8; 0xc4ac5665;
    0xf4292244; 0x432aff97; 0xab9423a7; 0xfc93a039;
    0x655b59c3; 0x8f0ccc92; 0xffeff47d; 0x85845dd1;
    0x6fa87e4f; 0xfe2ce6e0; 0xa3014314; 0x4e0811a1;
    0xf7537e82; 0xbd3af235; 0x2ad7d2bb; 0xeb86d391 ].

Record state : Type := { sa : Z; sb : Z; sc : Z; sd : Z }.

Definition init : state :=
  {| sa := 0x67452301; sb := 0xefcdab89; sc := 0x98badcfe; sd := 0x10325476 |}.

(** Little-endian bytes of a number. *)
Fixpoint le_bytes (n : nat) (x : Z) : list Z :=
  match n with
  | O => []
  | S n' => Z.land x 255 :: le_bytes n' (Z.shiftr x 8)
  end.

Fixpoint le_word (bs : list Z) : Z :=
  match bs with
  | [] => 0
  | b :: rest => Z.lor b (Z.shiftl (le_word rest) 8)
  end.

(** The sixteen message words of a 64-byte block. *)
Fixpoint words (n : nat) (block : list Z) : list Z :=
  match n with
  | O => []
  | S n' => le_word (firstn 4 block) :: words n' (skipn 4 block)
  end.

Definition round (M : list Z) (st : state) (i : Z) : state :=
  let '(f, g) :=
    if i <? 16 then
      (Z.lor (Z.land (sb st) (sc st)) (Z.land (not32 (sb st)) (sd st)), i)
    else if i <? 32 then
      (Z.lor (Z.land (sd st) (sb st)) (Z.land (not32 (sd st)) (sc st)), (5 * i + 1) mod 16)
    else if i <? 48 then
      (Z.lxor (sb st) (Z.lxor (sc st) (sd st)), (3 * i + 5) mod 16)
    else
      (Z.lxor (sc st) (Z.lor (sb st) (not32 (sd st))), (7 * i) mod 16) in
  let f' := add32 (add32 (add32 f (sa st)) (nth (Z.to_nat i) K 0))
                  (nth (Z.to_nat g) M 0) in
  {| sa := sd st; sd := sc st; sc := sb st;
     sb := add32 (sb st) (rotl32 f' (nth (Z.to_nat i) shifts 0)) |}.

Definition process_block (st : state) (block : list Z) : state :=
  let M := words 16 block in
  let st' := fold_left (round M) (map Z.of_nat (seq 0 64)) st in
  {| sa := add32 (sa st) (sa st'); sb := add32 (sb st) (sb st');
     sc := add32 (sc st) (sc st'); sd := add32 (sd st) (sd st') |}.

Fixpoint process (blocks : nat) (st : state) (msg : list Z) : state :=
  match blocks with
  | O => st
  | S n => process n (process_block st (firstn 64 msg)) (skipn 64 msg)
  end.

(** The message, a 1 bit, zeros up to 56 modulo 64, then the bit length
    as a 64-bit little-endian number. *)
Definition pad (msg : list Z) : list Z :=
  let len := Z.of_nat (length msg) in
  let zeros := Z.to_nat ((55 - len) mod 64) in
  msg ++ [128] ++ repeat 0 zeros ++ le_bytes 8 (Z.land (8 * len) (2 ^ 64 - 1)).

Definition digest (msg : list byte) : list Z :=
  let padded := pad (map (fun b => Z.of_N (Byte.to_N b)) msg) in
  let st := process (Nat.div (length padded) 64) init padded in
  le_bytes 4 (sa st) ++ le_bytes 4 (sb st) ++ le_bytes 4 (sc st) ++ le_bytes 4 (sd st).

Definition hex_digit (n : Z) : ascii :=
  if n <? 10 then ascii_of_N (Z.to_N (48 + n)) else ascii_of_N (Z.to_N (87 + n)).

Fixpoint hex (bs : list Z) : string :=
  match bs with
  | [] => EmptyString
  | b :: rest =>
      String (hex_digit (Z.shiftr b 4 mod 16)) (String (hex_digit (b mod 16)) (hex rest))
  end.

Definition hexdigest (msg : list byte) : string := hex (digest msg).

End MD5.

(** ** [json.dumps(..., sort_keys=True)] and the cache key *)

(** [str.encode()]: UTF-8 of code points below 256. *)
Fixpoint utf8_encode (s : string) : list byte :=
  match s with
  | EmptyString => []
  | String c rest =>
      let n := N_of_ascii c in
      (if (n <? 128)%N then [byte_of_ascii c]
       else [default Byte.x00 (Byte.of_N (192 + N.shiftr n 6));
             default Byte.x00 (Byte.of_N (128 + N.land n 63))])
        ++ utf8_encode rest
  end.

(** One character inside a JSON string with [ensure_ascii] on: the short
    escapes, and [\u00xx] for everything outside the printable ASCII range. *)
Definition json_escape_char (c : ascii) : string :=
  let n := Z.of_N (N_of_ascii c) in
  if (n =? 34)%Z then "\" ++ String c ""
  else if (n =? 92)%Z then "\\"
  else if (n =? 10)%Z then "\n"
  else if (n =? 13)%Z then "\r"
  else if (n =? 9)%Z then "\t"
  else if (n =? 8)%Z then "\b"
  else if (n =? 12)%Z then "\f"
  else if ((32 <=? n) && (n <=? 126))%Z then String c ""
  else "\u00" ++ MD5.hex [n].

Fixpoint json_escape (s : string) : string :=
  match s with
  | EmptyString => ""
  | String c rest => json_escape_char c ++ json_escape rest
  end.

Definition double_quote : ascii := ascii_of_N 34.

Definition json_string (s : string) : string :=
  String double_quote (json_escape s ++ String double_quote "").

(** Dictionary items are ordered by key; keys of a [dict] are distinct, so
    the order among equal keys never matters. *)
Definition key_le (x y : string * string) : Prop := String.le x.1 y.1.

#[global] Instance key_le_dec : RelDecision key_le.
Proof. intros x y. unfold key_le. apply _. Defined.

Section Cache_key.

(** [repr] of a float, as [json.dumps] prints it: a function of the
    standard library that the development takes as given. *)
Variable float_repr : Q -> string.

Fixpoint json_dumps (v : pyval) : string :=
  match v with
  | PNone => "null"
  | PBool b => if b then "true" else "false"
  | PInt z => string_of_Z z
  | PFloat q => float_repr q
  | PStr s => json_string s
  | PList l => "[" ++ join ", " (map json_dumps l) ++ "]"
  | PDict d =>
      let rendered := map (fun kv => match kv with (k, x) => (k, json_dumps x) end) d in
      "{" ++ join ", " (map (fun kv => json_string kv.1 ++ ": " ++ kv.2)
                            (merge_sort key_le rendered)) ++ "}"
  end.

(** [get_cache_key(endpoint, params)]; [params] lists the items of the
    dictionary in insertion order. *)
Definition get_cache_key (endpoint : string) (params : list (string * pyval)) : string :=
  let param_str := json_dumps (PDict params) in
  let cache_input := endpoint ++ ":" ++ param_str in
  MD5.hexdigest (utf8_encode cache_input).

End Cache_key.

(** ** Process state

    The module-level globals of the pipeline, the cache directory, and the
    parts of the environment the code reads: the clock behind [time.time()],
    the sleeps it asks for, and the draws of [random.random()]. *)

(** What [json.load] makes of a cache file: text that parses to a value,
    text that is no JSON ([JSONDecodeError]), or bytes that are no text
    ([UnicodeDecodeError] on reading). What [json.dump] writes parses back to
    the value written. *)
Inductive file : Type :=
  | JsonText (v : pyval)
  | BadJson (raw : string)
  | BadEncoding (raw : list byte).

Record governor : Type := {
  API_CALLS_MADE : Z;
  DAILY_CALLS_MADE : Z;
  QUOTA_EXCEEDED : bool;
  LAST_CALL_TIME : Q;
  DAILY_RESET_TIME : Q
}.

Record cache : Type := {
  files : gmap string file;
  CACHE_HITS : Z;
  CACHE_MISSES : Z
}.

Record world : Type := {
  gov : governor;
  cch : cache;
  clock : Q;
  sleeps : list Q;
  entropy : list Q;
  requests : nat
}.

Definition MAX_CALLS_PER_DAY : Z := 9000.
Definition MAX_CALLS_PER_MINUTE : Z := 2500.

Definition with_gov (g : governor) (w : world) : world :=
  {| gov := g; cch := cch w; clock := clock w; sleeps := sleeps w;
     entropy := entropy w; requests := requests w |}.

Definition with_cch (c : cache) (w : world) : world :=
  {| gov := gov w; cch := c; clock := clock w; sleeps := sleeps w;
     entropy := entropy w; requests := requests w |}.

(** [time.sleep(d)]: the clock moves on by [d]. *)
Definition time_sleep (d : Q) (w : world) : world :=
  {| gov := gov w; cch := cch w; clock := Qred (clock w + d); sleeps := d :: sleeps w;
     entropy := entropy w; requests := requests w |}.

(** [random.uniform(a, b)] is [a + (b - a) * random.random()]. *)
Definition random_uniform (a b : Q) (w : world) : Q * world :=
  let r := hd 0%Q (entropy w) in
  (Qred (a + (b - a) * r),
   {| gov := gov w; cch := cch w; clock := clock w; sleeps := sleeps w;
      entropy := tl (entropy w); requests := requests w |}).

Definition Qltb (a b : Q) : bool := negb (Qle_bool b a).

(** ** Response cache *)

Definition cache_file (cache_key : string) : string := cache_key ++ ".json".

(** [d.get(k, default)] on a parsed JSON object. *)
Fixpoint assoc_get (d : list (string * pyval)) (k : string) (dflt : pyval) : pyval :=
  match d with
  | [] => dflt
  | (k', v) :: rest => if String.eqb k' k then v else assoc_get rest k dflt
  end.

Definition count_hit (w : world) : world :=
  with_cch {| files := files (cch w); CACHE_HITS := CACHE_HITS (cch w) + 1;
              CACHE_MISSES := CACHE_MISSES (cch w) |} w.

Definition count_miss (w : world) : world :=
  with_cch {| files := files (cch w); CACHE_HITS := CACHE_HITS (cch w);
              CACHE_MISSES := CACHE_MISSES (cch w) + 1 |} w.

Definition unlink (name : string) (w : world) : world :=
  with_cch {| files := delete name (files (cch w)); CACHE_HITS := CACHE_HITS (cch w);
              CACHE_MISSES := CACHE_MISSES (cch w) |} w.

Definition write_file (name : string) (f : file) (w : world) : world :=
  with_cch {| files := <[name := f]> (files (cch w)); CACHE_HITS := CACHE_HITS (cch w);
              CACHE_MISSES := CACHE_MISSES (cch w) |} w.

(** [get_cached_response(cache_key)]. Python's [None] is [PNone]. The
    [except] clause catches [JSONDecodeError], [KeyError] and
    [FileNotFoundError]; any other exception reaches the caller. *)
Definition get_cached_response (cache_key : string) (w : world) : result pyval * world :=
  match files (cch w) !! cache_file cache_key with
  | Some (JsonText (PDict cached_data)) =>
      let cache_time := assoc_get cached_data "cached_at" (PInt 0) in
      match as_number cache_time with
      | Some t =>
          if Qltb (clock w - t) 86400
          then (Ok (assoc_get cached_data "response" PNone), count_hit w)
          else (Ok PNone, count_miss (unlink (cache_file cache_key) w))
      | None => (Raise TypeError, w)
      end
  | Some (JsonText _) => (Raise AttributeError, w)
  | Some (BadJson _) => (Ok PNone, count_miss w)
  | Some (BadEncoding _) => (Raise UnicodeDecodeError, w)
  | None => (Ok PNone, count_miss w)
  end.

(** [cache_response(cache_key, response)]. *)
Definition cache_response (cache_key : string) (response : pyval) (w : world) : world :=
  let cache_data := PDict [("cached_at", PFloat (clock w)); ("response", response)] in
  write_file (cache_file cache_key) (JsonText cache_data) w.

(** ** Quota governor *)

Definition set_quota_exceeded (w : world) : world :=
  with_gov {| API_CALLS_MADE := API_CALLS_MADE (gov w);
              DAILY_CALLS_MADE := DAILY_CALLS_MADE (gov w);
              QUOTA_EXCEEDED := true;
              LAST_CALL_TIME := LAST_CALL_TIME (gov w);
              DAILY_RESET_TIME := DAILY_RESET_TIME (gov w) |} w.

Definition reset_daily (now : Q) (w : world) : world :=
  with_gov {| API_CALLS_MADE := API_CALLS_MADE (gov w);
              DAILY_CALLS_MADE := 0;
              QUOTA_EXCEEDED := QUOTA_EXCEEDED (gov w);
              LAST_CALL_TIME := LAST_CALL_TIME (gov w);
              DAILY_RESET_TIME := now |} w.

Definition reset_minute (now : Q) (w : world) : world :=
  with_gov {| API_CALLS_MADE := 0;
              DAILY_CALLS_MADE := DAILY_CALLS_MADE (gov w);
              QUOTA_EXCEEDED := QUOTA_EXCEEDED (gov w);
              LAST_CALL_TIME := now;
              DAILY_RESET_TIME := DAILY_RESET_TIME (gov w) |} w.

Definition count_call (w : world) : world :=
  with_gov {| API_CALLS_MADE := API_CALLS_MADE (gov w) + 1;
              DAILY_CALLS_MADE := DAILY_CALLS_MADE (gov w) + 1;
              QUOTA_EXCEEDED := QUOTA_EXCEEDED (gov w);
              LAST_CALL_TIME := LAST_CALL_TIME (gov w);
              DAILY_RESET_TIME := DAILY_RESET_TIME (gov w) |} w.

(** [throttle_api_call()]. *)
Definition throttle_api_call (w : world) : bool * world :=
  if QUOTA_EXCEEDED (gov w) then (false, w)
  else
    let current_time := clock w in
    let w1 := if Qltb 86400 (current_time - DAILY_RESET_TIME (gov w))
              then reset_daily current_time w else w in
    if (MAX_CALLS_PER_DAY <=? DAILY_CALLS_MADE (gov w1))%Z
    then (false, set_quota_exceeded w1)
    else
      let w2 := if Qltb 60 (current_time - LAST_CALL_TIME (gov w1))
                then reset_minute current_time w1 else w1 in
      let w3 :=
        if (MAX_CALLS_PER_MINUTE <=? API_CALLS_MADE (gov w2))%Z then
          let wait_time := (60 - (current_time - LAST_CALL_TIME (gov w2)))%Q in
          if Qltb 0 wait_time then
            let w' := time_sleep wait_time w2 in
            reset_minute (clock w') w'
          else w2
        else w2 in
      let w4 := time_sleep (1 # 10) w3 in
      (true, count_call w4).

(** An [HttpError]: the status of the response and the text of the error. *)
Record http_error : Type := { status : Z; message : string }.

(** [handle_api_error(error, operation)]. *)
Definition handle_api_error (error : http_error) (operation : string) (w : world)
  : pyval * world :=
  if (status error =? 403)%Z && contains "quotaExceeded" (message error) then
    (PNone, set_quota_exceeded w)
  else if (status error =? 429)%Z then
    let '(wait_time, w1) := random_uniform 30 60 w in
    (PStr "retry", time_sleep wait_time w1)
  else (PNone, w).

(** ** Gatherer: [resolve_channel_id] *)

(** What [req.execute()] comes back with. *)
Inductive api_reply : Type :=
  | Reply (res : pyval)
  | HttpError (error : http_error).

(** [v[key]] and [v[0]]. *)
Definition py_getitem (v : pyval) (key : string) : result pyval :=
  match v with
  | PDict d =>
      match assoc_get d key PNone, existsb (fun kv => String.eqb kv.1 key) d with
      | x, true => Ok x
      | _, false => Raise KeyError
      end
  | _ => Raise TypeError
  end.

Definition py_first (v : pyval) : result pyval :=
  match v with
  | PList (x :: _) => Ok x
  | PList [] => Raise IndexError
  | PStr (String c _) => Ok (PStr (String c ""))
  | PStr EmptyString => Raise IndexError
  | PDict _ => Raise KeyError
  | _ => Raise TypeError
  end.

(** [v.get(key, default)] on a value that should be a [dict]. *)
Definition py_get (v : pyval) (key : string) (dflt : pyval) : result pyval :=
  match v with
  | PDict d => Ok (assoc_get d key dflt)
  | _ => Raise AttributeError
  end.

(** [items = res.get("items", []);
     items[0]["snippet"]["channelId"] if items else None]. *)
Definition first_channel_id (res : pyval) : result pyval :=
  items ← py_get res "items" (PList []);
  if truthy items then
    item ← py_first items;
    snippet ← py_getitem item "snippet";
    py_getitem snippet "channelId"
  else Ok PNone.

Section Gatherer.

Variable float_repr : Q -> string.

(** The remote API: the reply to the [n]-th request sent to it. *)
Variable youtube : nat -> api_reply.

Definition execute (w : world) : api_reply * world :=
  (youtube (requests w),
   {| gov := gov w; cch := cch w; clock := clock w; sleeps := sleeps w;
      entropy := entropy w; requests := S (requests w) |}).

(** [resolve_channel_id(youtube, channel_name)]. [depth] is the number of
    stack frames left before Python raises [RecursionError]. *)
Fixpoint resolve_channel_id (depth : nat) (channel_name : string) (w : world)
  : result pyval * world :=
  match depth with
  | O => (Raise RecursionError, w)
  | S depth' =>
      let params := [("q", PStr channel_name); ("type", PStr "channel");
                     ("part", PStr "snippet"); ("maxResults", PInt 1)] in
      let cache_key := get_cache_key float_repr "search" params in
      match get_cached_response cache_key w with
      | (Raise x, w1) => (Raise x, w1)
      | (Ok cached_response, w1) =>
          if truthy cached_response then (first_channel_id cached_response, w1)
          else
            match throttle_api_call w1 with
            | (false, w2) => (Ok PNone, w2)
            | (true, w2) =>
                match execute w2 with
                | (Reply res, w3) =>
                    let w4 := cache_response cache_key res w3 in
                    (first_channel_id res, w4)
                | (HttpError e, w3) =>
                    match handle_api_error e "resolve_channel_id" w3 with
                    | (PStr "retry", w4) => resolve_channel_id depth' channel_name w4
                    | (_, w4) => (Ok PNone, w4)
                    end
                end
            end
      end
  end.

End Gatherer.

(** ** Maturity scorer *)

Definition educational_keywords : list string :=
  ["tutorial"; "learn"; "education"; "lesson"; "course"; "study"; "school";
    "university"; "science"; "history"; "math"; "physics"; "chemistry"; "biology";
    "geography"; "recipe"; "cooking"; "how to"; "diy"; "instructions"; "guide";
    "explained"; "documentary"; "facts"; "research"; "analysis"; "academic";
    "scholarly" ].

Definition explicit_adult_keywords : list string :=
  ["porn"; "sex"; "nude"; "naked"; "explicit"; "nsfw"; "adult only"; "18+"; "onlyfans";
    "escort"; "prostitute"; "stripper"; "cam girl"; "xxx"; "sexy"; "bikini";
    "underwear"; "lingerie"; "fetish"; "erotic"; "seduction" ].

Definition drama_keywords : list string :=
  ["drama"; "exposed"; "controversy"; "scandal"; "beef"; "calling out"; "destroyed";
    "roasted"; "cancelled"; "toxic"; "problematic"; "allegations"; "lawsuit";
    "predator"; "grooming"; "harassment"; "abuse"; "assault"; "criminal"; "arrest";
    "court"; "police"; "investigation"; "victim"; "stalking"; "threatening" ].

Definition adult_personality_keywords : list string :=
  ["drunk"; "drinking"; "alcohol"; "party"; "club"; "bar"; "wasted"; "hangover";
    "smoking"; "vape"; "weed"; "drugs"; "high"; "stoned"; "pills"; "cocaine";
    "gambling"; "casino"; "bet"; "poker"; "strip club"; "hookup"; "dating app";
    "tinder"; "bumble"; "relationship drama"; "cheating"; "affair"; "breakup" ].

Definition mature_themes_keywords : list string :=
  ["depression"; "suicide"; "self harm"; "cutting"; "mental health crisis";
    "eating disorder"; "anorexia"; "bulimia"; "addiction"; "rehab"; "therapy";
    "violence"; "fight"; "beating"; "blood"; "gore"; "murder"; "death"; "kill" ].

Definition mature_gaming_keywords : list string :=
  ["call of duty"; "grand theft auto"; "gta"; "mortal kombat"; "resident evil"; "doom";
    "battlefield"; "dead space"; "outlast"; "horror game"; "rated m"; "mature rating";
    "violent game"; "shooter"; "fps" ].

Definition profanity_keywords : list string :=
  ["fuck"; "shit"; "damn"; "hell"; "ass"; "bitch"; "bastard"; "piss"; "crap" ].

(** The seven counters of [analyze_content_maturity]. *)
Record counts : Type := {
  educational_count : Z;
  explicit_count : Z;
  drama_count : Z;
  mature_gaming_count : Z;
  profanity_count : Z;
  adult_personality_count : Z;
  mature_themes_count : Z
}.

(** One entry of [videos]: [video.get("title", "")] and the like fall
    back to the empty text when the key is missing. *)
Record video : Type := {
  title : option string;
  description : option string;
  tags : option (list string)
}.

(** [for keyword in keywords: if keyword in text: count += weight]. *)
Definition count_keywords (keywords : list string) (text : string) (weight count : Z) : Z :=
  fold_left (fun c keyword => if contains keyword text then (c + weight)%Z else c)
            keywords count.

(** The scan of the channel description: five of the seven keyword sets
    are matched against it. *)
Definition scan_description (channel_description : string) (c : counts) : counts :=
  let channel_text := lower channel_description in
  {| educational_count :=
       count_keywords educational_keywords channel_text 2 (educational_count c);
     explicit_count :=
       count_keywords explicit_adult_keywords channel_text 3 (explicit_count c);
     drama_count := count_keywords drama_keywords channel_text 2 (drama_count c);
     mature_gaming_count := mature_gaming_count c;
     profanity_count := profanity_count c;
     adult_personality_count :=
       count_keywords adult_personality_keywords channel_text 2 (adult_personality_count c);
     mature_themes_count :=
       count_keywords mature_themes_keywords channel_text 2 (mature_themes_count c) |}.

(** [f"{title} {description} {tags}"] of one video. *)
Definition video_text (v : video) : string :=
  let title := lower (default "" (title v)) in
  let description := take 500 (lower (default "" (description v))) in
  let tags := lower (join " " (default [] (tags v))) in
  title ++ " " ++ description ++ " " ++ tags.

(** The body of [for video in videos]. *)
Definition scan_video (c : counts) (v : video) : counts :=
  let video_text := video_text v in
  {| educational_count :=
       count_keywords educational_keywords video_text 1 (educational_count c);
     explicit_count :=
       count_keywords explicit_adult_keywords video_text 1 (explicit_count c);
     drama_count := count_keywords drama_keywords video_text 1 (drama_count c);
     mature_gaming_count :=
       count_keywords mature_gaming_keywords video_text 1 (mature_gaming_count c);
     profanity_count := count_keywords profanity_keywords video_text 1 (profanity_count c);
     adult_personality_count :=
       count_keywords adult_personality_keywords video_text 1 (adult_personality_count c);
     mature_themes_count :=
       count_keywords mature_themes_keywords video_text 1 (mature_themes_count c) |}.

Definition count_occurrences (videos : list video) (channel_description : string) : counts :=
  let zero := {| educational_count := 0; explicit_count := 0; drama_count := 0;
                 mature_gaming_count := 0; profanity_count := 0;
                 adult_personality_count := 0; mature_themes_count := 0 |} in
  fold_left scan_video videos (scan_description channel_description zero).

(** [explicit_count + adult_personality_count * 0.5 + mature_themes_count * 0.7],
    computed on rationals and kept in lowest terms. *)
Definition adult_content_score (c : counts) : Q :=
  Qred (inject_Z (explicit_count c) + inject_Z (adult_personality_count c) * (1 # 2)
        + inject_Z (mature_themes_count c) * (7 # 10)).

Definition py_max (a b : Q) : Q := if Qltb a b then b else a.

(** [count >= max(floor, video_count * fraction)]. *)
Definition reaches (count : Z) (floor : Z) (video_count : Z) (fraction : Q) : bool :=
  Qle_bool (py_max (inject_Z floor) (inject_Z video_count * fraction)) (inject_Z count).

(** [analyze_content_maturity(videos, channel_description)]: the returned
    dictionary. *)
Definition analyze_content_maturity (videos : list video) (channel_description : string)
  : gmap string pyval :=
  let c := count_occurrences videos channel_description in
  let video_count := match videos with [] => 1%Z | _ => Z.of_nat (length videos) end in
  let score := adult_content_score c in
  let adult := (1 <=? explicit_count c)%Z || Qle_bool 2 score in
  list_to_map
    [ ("is_educational_content", PBool (reaches (educational_count c) 3 video_count (4 # 10)));
      ("is_explicit_adult_content", PBool adult);
      ("is_drama_controversy_heavy", PBool (reaches (drama_count c) 2 video_count (3 # 10)));
      ("is_mature_gaming_focused",
         PBool (reaches (mature_gaming_count c) 2 video_count (3 # 10)));
      ("is_adult_personality_heavy",
         PBool (reaches (adult_personality_count c) 2 video_count (2 # 10)));
      ("is_mature_themes_heavy",
         PBool (reaches (mature_themes_count c) 2 video_count (2 # 10)));
      ("mature_language_detected", PBool (1 <=? profanity_count c)%Z);
      ("adult_keywords_detected", PBool adult);
      ("gaming_mature_rating", PBool (1 <=? mature_gaming_count c)%Z);
      ("profanity_frequency", PInt (profanity_count c));
      ("adult_keyword_frequency", PInt (explicit_count c));
      ("mature_game_count", PInt (mature_gaming_count c));
      ("educational_score", PInt (educational_count c));
      ("drama_score", PInt (drama_count c));
      ("adult_personality_score", PInt (adult_personality_count c));
      ("mature_themes_score", PInt (mature_themes_count c));
      ("total_adult_content_score", PFloat score) ].

(** *** Keyword categories

    The seven categories, the keyword set of each, and the key under which
    the returned dictionary reports its count. *)
Inductive category : Type :=
  | Educational
  | ExplicitAdult
  | Drama
  | AdultLifestyle
  | MatureThemes
  | MatureGaming
  | Profanity.

Definition keywords (c : category) : list string :=
  match c with
  | Educational => educational_keywords
  | ExplicitAdult => explicit_adult_keywords
  | Drama => drama_keywords
  | AdultLifestyle => adult_personality_keywords
  | MatureThemes => mature_themes_keywords
  | MatureGaming => mature_gaming_keywords
  | Profanity => profanity_keywords
  end.

Definition count_key (c : category) : string :=
  match c with
  | Educational => "educational_score"
  | ExplicitAdult => "adult_keyword_frequency"
  | Drama => "drama_score"
  | AdultLifestyle => "adult_personality_score"
  | MatureThemes => "mature_themes_score"
  | MatureGaming => "mature_game_count"
  | Profanity => "profanity_frequency"
  end.

Definition count_of (c : category) (x : counts) : Z :=
  match c with
  | Educational => educational_count x
  | ExplicitAdult => explicit_count x
  | Drama => drama_count x
  | AdultLifestyle => adult_personality_count x
  | MatureThemes => mature_themes_count x
  | MatureGaming => mature_gaming_count x
  | Profanity => profanity_count x
  end.

(** The number of keywords of a set that occur in a text. *)
Definition hits (kws : list string) (text : string) : Z :=
  Z.of_nat (length (List.filter (fun kw => contains kw text) kws)).

(** The hits of a keyword set summed over the videos, one per keyword
    and video. *)
Definition video_hits (kws : list string) (videos : list video) : Z :=
  fold_right (fun v acc => (hits kws (video_text v) + acc)%Z) 0%Z videos.

(** The weight the code gives to a hit in the channel description. *)
Definition description_weight (c : category) : Z :=
  match c with
  | ExplicitAdult => 3
  | MatureGaming | Profanity => 0
  | _ => 2
  end.

(** The weight C8 states for it: double, triple for explicit-adult. *)
Definition stated_description_weight (c : category) : Z :=
  match c with
  | ExplicitAdult => 3
  | _ => 2
  end.

(** [v'] is [v] with text appended to its tags: the joined tags of [v']
    start with the joined tags of [v], as they do when tags are added to the
    list or text is appended to the last tag. *)
Definition appends_to_tags (v v' : video) : Prop :=
  title v' = title v
  /\ description v' = description v
  /\ exists extra : string,
       join " " (default [] (tags v')) = join " " (default [] (tags v)) ++ extra.

(** [v'] is [v] with text appended to its title. *)
Definition extends_title (v v' : video) : Prop :=
  (exists extra : string, default "" (title v') = default "" (title v) ++ extra)
  /\ description v' = description v
  /\ tags v' = tags v.

(** ** Adjudicator *)

Definition decision : Type := (pyval * string * string)%type.

(** [evidence.get(flag) and evidence.get(count, 0) >= n]: the count is only
    looked at when the flag is truthy. *)
Definition flag_and_ge (evidence : gmap string pyval) (flag count : string) (n : Z)
  : result bool :=
  if truthy (dict_get evidence flag)
  then py_ge (dict_get_or evidence count (PInt 0)) n
  else Ok false.

(** [adjudicate_evidence(evidence, channel_name)]. The walrus bindings
    [(age := evidence.get(..))] hand the stored value itself back as the age.
    The non-breaking hyphen of the age-restriction note is written [-]. *)
Definition adjudicate_evidence (evidence : gmap string pyval) (channel_name : string)
  : result decision :=
  if truthy (dict_get evidence "made_for_kids") then
    Ok (PInt 3, "YouTube_madeForKids", "Channel flagged Made for Kids in YouTube Data API")
  else if truthy (dict_get evidence "common_sense_age") then
    Ok (dict_get evidence "common_sense_age", "CommonSenseMedia", "CSM recommended age")
  else if truthy (dict_get evidence "kidsafe") then
    Ok (PInt 4, "kidSAFE", "Listed as kidSAFE certified")
  else if truthy (dict_get evidence "yt_agerestricted") then
    Ok (PInt 18, "YouTube_AgeRestricted", "Majority content age-restricted")
  else if truthy (dict_get evidence "video_board_max_age") then
    Ok (dict_get evidence "video_board_max_age", "RegionalBoardMax",
        "Max rating across recent uploads")
  else if truthy (dict_get evidence "is_educational_content") then
    Ok (PInt 13, "EducationalContent", "Educational/instructional content detected")
  else if truthy (dict_get evidence "is_explicit_adult_content") then
    Ok (PInt 18, "ExplicitContent", "Explicit adult content detected")
  else if truthy (dict_get evidence "is_drama_controversy_heavy") then
    Ok (PInt 18, "DramaContent", "Heavy drama/controversy content detected")
  else if truthy (dict_get evidence "is_adult_personality_heavy") then
    Ok (PInt 18, "AdultPersonality", "Adult lifestyle/personality content detected")
  else if truthy (dict_get evidence "is_mature_themes_heavy") then
    Ok (PInt 17, "MatureThemes", "Mature themes (violence, mental health) detected")
  else if truthy (dict_get evidence "is_mature_gaming_focused") then
    Ok (PInt 17, "MatureGaming", "Mature gaming content focus detected")
  else
    let total_adult_score := dict_get_or evidence "total_adult_content_score" (PInt 0) in
    high ← py_ge total_adult_score 3;
    if high : bool then
      score_text ← format_1f total_adult_score;
      Ok (PInt 18, "AdultContentScore", "High adult content score: " ++ score_text)
    else
      adult ← flag_and_ge evidence "adult_keywords_detected" "adult_keyword_frequency" 2;
      if adult : bool then
        Ok (PInt 18, "AdultKeywords", "Multiple adult-oriented keywords detected")
      else
        language ← flag_and_ge evidence "mature_language_detected" "profanity_frequency" 3;
        if language : bool then
          Ok (PInt 17, "MatureLanguage", "Frequent mature language detected")
        else
          gaming ← flag_and_ge evidence "gaming_mature_rating" "mature_game_count" 3;
          if gaming : bool then
            Ok (PInt 17, "MatureGaming", "Multiple mature-rated games detected")
          else
            Ok (PInt 13, "Default", "Fallback to YouTube minimum age per policy").

(** *** The documented precedence table

    The sixteen rules in the order the specification lists them, each a
    condition on the evidence bag and the decision it yields. This table is
    the specification's side of the comparison with [adjudicate_evidence]. *)

Record rule : Type := {
  rule_name : string;
  cond : gmap string pyval -> result bool;
  outcome : gmap string pyval -> result decision
}.

Definition flag_rule (name key : string) (d : decision) : rule :=
  {| rule_name := name;
     cond := fun e => Ok (truthy (dict_get e key));
     outcome := fun _ => Ok d |}.

Definition value_rule (name key label note : string) : rule :=
  {| rule_name := name;
     cond := fun e => Ok (truthy (dict_get e key));
     outcome := fun e => Ok (dict_get e key, label, note) |}.

Definition count_rule (name flag count : string) (n : Z) (d : decision) : rule :=
  {| rule_name := name;
     cond := fun e => flag_and_ge e flag count n;
     outcome := fun _ => Ok d |}.

Definition precedence_table : list rule :=
  [ flag_rule "made-for-kids" "made_for_kids"
      (PInt 3, "YouTube_madeForKids", "Channel flagged Made for Kids in YouTube Data API");
    value_rule "expert recommendation" "common_sense_age"
      "CommonSenseMedia" "CSM recommended age";
    flag_rule "certification listing" "kidsafe"
      (PInt 4, "kidSAFE", "Listed as kidSAFE certified");
    flag_rule "official age-restriction" "yt_agerestricted"
      (PInt 18, "YouTube_AgeRestricted", "Majority content age-restricted");
    value_rule "regional-board maximum" "video_board_max_age"
      "RegionalBoardMax" "Max rating across recent uploads";
    flag_rule "educational" "is_educational_content"
      (PInt 13, "EducationalContent", "Educational/instructional content detected");
    flag_rule "explicit" "is_explicit_adult_content"
      (PInt 18, "ExplicitContent", "Explicit adult content detected");
    flag_rule "drama" "is_drama_controversy_heavy"
      (PInt 18, "DramaContent", "Heavy drama/controversy content detected");
    flag_rule "adult-lifestyle" "is_adult_personality_heavy"
      (PInt 18, "AdultPersonality", "Adult lifestyle/personality content detected");
    flag_rule "mature-themes" "is_mature_themes_heavy"
      (PInt 17, "MatureThemes", "Mature themes (violence, mental health) detected");
    flag_rule "mature-gaming" "is_mature_gaming_focused"
      (PInt 17, "MatureGaming", "Mature gaming content focus detected");
    {| rule_name := "composite score";
       cond := fun e => py_ge (dict_get_or e "total_adult_content_score" (PInt 0)) 3;
       outcome := fun e =>
         score_text ← format_1f (dict_get_or e "total_adult_content_score" (PInt 0));
         Ok (PInt 18, "AdultContentScore", "High adult content score: " ++ score_text) |};
    count_rule "adult-keyword frequency" "adult_keywords_detected" "adult_keyword_frequency" 2
      (PInt 18, "AdultKeywords", "Multiple adult-oriented keywords detected");
    count_rule "profanity" "mature_language_detected" "profanity_frequency" 3
      (PInt 17, "MatureLanguage", "Frequent mature language detected");
    count_rule "gaming count" "gaming_mature_rating" "mature_game_count" 3
      (PInt 17, "MatureGaming", "Multiple mature-rated games detected");
    {| rule_name := "default";
       cond := fun _ => Ok true;
       outcome := fun _ =>
         Ok (PInt 13, "Default", "Fallback to YouTube minimum age per policy") |} ].

(** The stored value under a count or score key is a number, as every bag
    that [analyze_content_maturity] extends has it. *)
Definition numeric_field (e : gmap string pyval) (k : string) : Prop :=
  forall v, e !! k = Some v -> is_Some (as_number v).

(** A score that is stored as an [int] is one that a float can hold. *)
Definition score_in_float_range (e : gmap string pyval) : Prop :=
  forall z, e !! "total_adult_content_score" = Some (PInt z) -> (z <= DBL_MAX)%Z.

Definition evidence_well_typed (e : gmap string pyval) : Prop :=
  numeric_field e "total_adult_content_score"
  /\ score_in_float_range e
  /\ numeric_field e "adult_keyword_frequency"
  /\ numeric_field e "profanity_frequency"
  /\ numeric_field e "mature_game_count".

(** The evidence bag that one pass of the loop of [enrich_dataset] builds
    from what the gatherer calls returned. [official] is present when the
    channel id was resolved: the [madeForKids] status, whether some recent
    video is age-restricted, and the board ages found; [maturity] is the
    result of [analyze_content_maturity], merged in by [evidence.update]. *)
Definition board_max (board_ages : list Z) : pyval :=
  match board_ages with
  | [] => PNone
  | a :: rest => PInt (fold_left Z.max rest a)
  end.

Definition build_evidence
    (official : option (pyval * bool * list Z)) (common_sense_age : option Z)
    (kidsafe : bool) (maturity : option (gmap string pyval)) : gmap string pyval :=
  let e0 : gmap string pyval :=
    match official with
    | Some (made_for_kids, restricted, board_ages) =>
        <["video_board_max_age" := board_max board_ages]>
          (<["yt_agerestricted" := PBool restricted]>
             (<["made_for_kids" := made_for_kids]> ∅))
    | None => ∅
    end in
  let e1 :=
    <["kidsafe" := PBool kidsafe]>
      (<["common_sense_age" := from_option PInt PNone common_sense_age]> e0) in
  match maturity with
  | Some m => m ∪ e1
  | None => e1
  end.

(** First match wins: the rules are tried in list order, and the first one
    whose condition holds decides; a condition that raises stops the search. *)
Fixpoint first_match (rules : list rule) (e : gmap string pyval)
  : result (option decision) :=
  match rules with
  | [] => Ok None
  | r :: rest =>
      b ← cond r e;
      if b : bool then d ← outcome r e; Ok (Some d) else first_match rest e
  end.

(** ** Inputs used in the examples *)

(** A bag that holds an integer score and a count, and no flag. *)
Definition scored_bag : gmap string pyval :=
  <["total_adult_content_score" := PInt 5]> (<["profanity_frequency" := PInt 1]> ∅).

(** A bag with conflicting signals: certified by kidSAFE and flagged as
    explicit by the scorer. The certification listing, third in the table, wins. *)
Definition conflicting_bag : gmap string pyval :=
  <["made_for_kids" := PBool false]>
  (<["common_sense_age" := PNone]>
  (<["kidsafe" := PBool true]>
  (<["is_explicit_adult_content" := PBool true]>
  (<["total_adult_content_score" := PFloat (7 # 2)]> ∅)))).

(** A bag whose expert recommendation is 0. *)
Definition zero_age_bag : gmap string pyval :=
  <["common_sense_age" := PInt 0]> (<["is_educational_content" := PBool true]> ∅).


Definition initial_governor : governor :=
  {| API_CALLS_MADE := 0; DAILY_CALLS_MADE := 0; QUOTA_EXCEEDED := false;
     LAST_CALL_TIME := 0; DAILY_RESET_TIME := 0 |}.

(** A fresh process at [now]: the globals as the module sets them on
    import, an empty cache directory. *)
Definition fresh_world (now : Q) (draws : list Q) : world :=
  {| gov := initial_governor;
     cch := {| files := ∅; CACHE_HITS := 0; CACHE_MISSES := 0 |};
     clock := now; sleeps := []; entropy := draws; requests := 0 |}.

Definition no_floats (q : Q) : string := "".

Definition search_params : list (string * pyval) :=
  [("q", PStr "Blippi"); ("type", PStr "channel"); ("part", PStr "snippet");
   ("maxResults", PInt 1)].

Definition search_response : pyval :=
  PDict [("items", PList [PDict [("snippet", PDict [("channelId", PStr "UC5PYHgAzJ1wLEidB58SK6Xw")])]])].

(** A cache directory whose entry for [cache_key] holds the JSON text [[]]. *)
Definition world_with_file (cache_key : string) (f : file) : world :=
  write_file (cache_file cache_key) f (fresh_world 1700000000 []).

(** *** States of the governor

    A run starts with the counters at zero and the breaker open; from there
    the state changes by calls of [throttle_api_call] and by time passing
    between them. *)

Definition call_throttle (w : world) : world := (throttle_api_call w).2.

Definition pass_time (d : Q) (w : world) : world :=
  {| gov := gov w; cch := cch w; clock := Qred (clock w + d); sleeps := sleeps w;
     entropy := entropy w; requests := requests w |}.

Inductive reachable : world -> Prop :=
  | reachable_start (w : world) :
      API_CALLS_MADE (gov w) = 0%Z ->
      DAILY_CALLS_MADE (gov w) = 0%Z ->
      QUOTA_EXCEEDED (gov w) = false ->
      reachable w
  | reachable_call (w : world) :
      reachable w -> reachable (call_throttle w)
  | reachable_wait (w : world) (d : Q) :
      reachable w -> (0 <= d)%Q -> reachable (pass_time d w).

(** The state after [MAX_CALLS_PER_DAY] calls in a row in a fresh process,
    and the same state more than a day later. *)
Definition world_at_daily_limit : world :=
  Nat.iter (Z.to_nat MAX_CALLS_PER_DAY) call_throttle (fresh_world 1700000000 []).

Definition world_a_day_later : world := pass_time 86400 world_at_daily_limit.

(** A remote API that answers the first [n] requests with status 429 and
    the following ones with a search result. *)
Definition rate_limited_youtube (n : nat) (request : nat) : api_reply :=
  if (request <? n)%nat
  then HttpError {| status := 429; message := "rateLimitExceeded" |}
  else Reply search_response.

(** A video whose title and description together spell the keyword
    ["adult only"], and the same video with [" sex"] appended to its title. *)
Definition split_keyword_video : video :=
  {| title := Some "sex adult"; description := Some "only"; tags := Some [] |}.

Definition split_keyword_video_longer_title : video :=
  {| title := Some "sex adult sex"; description := Some "only"; tags := Some [] |}.

(** * The rest of the pipeline

    The gatherer calls beside [resolve_channel_id], the third-party
    listing check, and the parts of the loop of [enrich_dataset] that turn
    their results into evidence. *)

(** ** Gatherer: the other calls through cache and governor *)

(** [for x in v]: what iterating over a value yields. *)
Definition py_iter (v : pyval) : result (list pyval) :=
  match v with
  | PList l => Ok l
  | PStr s => Ok (map (fun c => PStr (String c "")) (list_ascii_of_string s))
  | PDict d => Ok (map (fun kv => PStr kv.1) d)
  | _ => Raise TypeError
  end.

(** A list comprehension [[f(x) for x in xs]]: the first exception ends it. *)
Fixpoint py_map (f : pyval -> result pyval) (xs : list pyval) : result (list pyval) :=
  match xs with
  | [] => Ok []
  | x :: rest =>
      y ← f x;
      ys ← py_map f rest;
      Ok (y :: ys)
  end.

(** [v[:n]] on a string or a list. *)
Definition py_prefix (n : nat) (v : pyval) : result pyval :=
  match v with
  | PStr s => Ok (PStr (take n s))
  | PList l => Ok (PList (firstn n l))
  | _ => Raise TypeError
  end.

(** [items = res.get("items", []);
     items[0]["status"] if items else {}]. *)
Definition channel_status_of (res : pyval) : result pyval :=
  items ← py_get res "items" (PList []);
  if truthy items then
    item ← py_first items;
    py_getitem item "status"
  else Ok (PDict []).

(** The dictionary [get_channel_meta] builds from the first item; the
    entries are evaluated in the order written. *)
Definition channel_meta_of (res : pyval) : result pyval :=
  items ← py_get res "items" PNone;
  if negb (truthy items) then Ok (PDict [])
  else
    items ← py_getitem res "items";
    channel ← py_first items;
    snippet ← py_getitem channel "snippet";
    description ← py_getitem snippet "description";
    topic_details ← py_get channel "topicDetails" (PDict []);
    topics ← py_get topic_details "topicCategories" (PList []);
    snippet ← py_getitem channel "snippet";
    published ← py_getitem snippet "publishedAt";
    created_year ← py_prefix 4 published;
    statistics ← py_getitem channel "statistics";
    video_count ← py_get statistics "videoCount" (PStr "0");
    statistics ← py_getitem channel "statistics";
    subscriber_count ← py_get statistics "subscriberCount" (PStr "0");
    snippet ← py_getitem channel "snippet";
    category ← py_get snippet "categoryId" (PStr "Unknown");
    Ok (PDict [("description", description); ("topics", topics);
               ("created_year", created_year); ("video_count", video_count);
               ("subscriber_count", subscriber_count); ("youtube_category", category)]).

(** [[it["id"]["videoId"] for it in res.get("items", [])]]. *)
Definition video_ids_of (res : pyval) : result pyval :=
  items ← py_get res "items" (PList []);
  its ← py_iter items;
  ids ← py_map (fun it => id ← py_getitem it "id"; py_getitem id "videoId") its;
  Ok (PList ids).

(** [items = res.get("items", []);
     items[0]["contentDetails"].get("contentRating", {}) if items else {}]. *)
Definition content_rating_of (res : pyval) : result pyval :=
  items ← py_get res "items" (PList []);
  if truthy items then
    item ← py_first items;
    details ← py_getitem item "contentDetails";
    py_get details "contentRating" (PDict [])
  else Ok (PDict []).

Section Sub_calls.

Variable float_repr : Q -> string.
Variable youtube : nat -> api_reply.

(** The body that [resolve_channel_id], [get_channel_status],
    [get_channel_meta], [list_recent_videos] and [get_video_content_rating]
    have in common: look in the cache, ask the governor, send the request,
    cache the reply, and on an [HttpError] call the function again when
    [handle_api_error] says so. They differ in the endpoint name, the
    parameters, what they take from the response and what they return when
    they give up. *)
Fixpoint cached_api_call
    (depth : nat) (endpoint operation : string) (params : list (string * pyval))
    (extract : pyval -> result pyval) (dflt : pyval) (w : world)
  : result pyval * world :=
  match depth with
  | O => (Raise RecursionError, w)
  | S depth' =>
      let cache_key := get_cache_key float_repr endpoint params in
      match get_cached_response cache_key w with
      | (Raise x, w1) => (Raise x, w1)
      | (Ok cached_response, w1) =>
          if truthy cached_response then (extract cached_response, w1)
          else
            match throttle_api_call w1 with
            | (false, w2) => (Ok dflt, w2)
            | (true, w2) =>
                match execute youtube w2 with
                | (Reply res, w3) =>
                    let w4 := cache_response cache_key res w3 in
                    (extract res, w4)
                | (HttpError e, w3) =>
                    match handle_api_error e operation w3 with
                    | (PStr "retry", w4) =>
                        cached_api_call depth' endpoint operation params extract dflt w4
                    | (_, w4) => (Ok dflt, w4)
                    end
                end
            end
      end
  end.

(** [get_channel_status(youtube, channel_id)]. *)
Definition get_channel_status (depth : nat) (channel_id : pyval) : world -> result pyval * world :=
  cached_api_call depth "channels_status" "get_channel_status"
    [("id", channel_id); ("part", PStr "status")]
    channel_status_of (PDict []).

(** [get_channel_meta(youtube, channel_id)]. *)
Definition get_channel_meta (depth : nat) (channel_id : pyval) : world -> result pyval * world :=
  cached_api_call depth "channels_meta" "get_channel_meta"
    [("id", channel_id); ("part", PStr "snippet,topicDetails,statistics")]
    channel_meta_of (PDict []).

(** [list_recent_videos(youtube, channel_id, limit)]. *)
Definition list_recent_videos (depth : nat) (channel_id : pyval) (limit : Z)
  : world -> result pyval * world :=
  cached_api_call depth "search_videos" "list_recent_videos"
    [("channelId", channel_id); ("order", PStr "date"); ("type", PStr "video");
     ("part", PStr "id"); ("maxResults", PInt limit)]
    video_ids_of (PList []).

(** [get_video_content_rating(youtube, video_id)]. *)
Definition get_video_content_rating (depth : nat) (video_id : pyval)
  : world -> result pyval * world :=
  cached_api_call depth "videos_rating" "get_video_content_rating"
    [("id", video_id); ("part", PStr "contentDetails")]
    content_rating_of (PDict []).

(** The five calls, named. *)
Inductive sub_call : Type :=
  | ResolveChannelId (channel_name : string)
  | GetChannelStatus (channel_id : pyval)
  | GetChannelMeta (channel_id : pyval)
  | ListRecentVideos (channel_id : pyval) (limit : Z)
  | GetVideoContentRating (video_id : pyval).

Definition run_sub_call (c : sub_call) (depth : nat) (w : world) : result pyval * world :=
  match c with
  | ResolveChannelId name => resolve_channel_id float_repr youtube depth name w
  | GetChannelStatus id => get_channel_status depth id w
  | GetChannelMeta id => get_channel_meta depth id w
  | ListRecentVideos id limit => list_recent_videos depth id limit w
  | GetVideoContentRating id => get_video_content_rating depth id w
  end.

(** The cache key a call uses, what it takes from a response, and what it
    returns when it gives up. *)
Definition sub_call_key (c : sub_call) : string :=
  match c with
  | ResolveChannelId name =>
      get_cache_key float_repr "search"
        [("q", PStr name); ("type", PStr "channel"); ("part", PStr "snippet");
         ("maxResults", PInt 1)]
  | GetChannelStatus id =>
      get_cache_key float_repr "channels_status" [("id", id); ("part", PStr "status")]
  | GetChannelMeta id =>
      get_cache_key float_repr "channels_meta"
        [("id", id); ("part", PStr "snippet,topicDetails,statistics")]
  | ListRecentVideos id limit =>
      get_cache_key float_repr "search_videos"
        [("channelId", id); ("order", PStr "date"); ("type", PStr "video");
         ("part", PStr "id"); ("maxResults", PInt limit)]
  | GetVideoContentRating id =>
      get_cache_key float_repr "videos_rating" [("id", id); ("part", PStr "contentDetails")]
  end.

Definition sub_call_extract (c : sub_call) : pyval -> result pyval :=
  match c with
  | ResolveChannelId _ => first_channel_id
  | GetChannelStatus _ => channel_status_of
  | GetChannelMeta _ => channel_meta_of
  | ListRecentVideos _ _ => video_ids_of
  | GetVideoContentRating _ => content_rating_of
  end.

Definition sub_call_default (c : sub_call) : pyval :=
  match c with
  | ResolveChannelId _ => PNone
  | GetChannelStatus _ | GetChannelMeta _ | GetVideoContentRating _ => PDict []
  | ListRecentVideos _ _ => PList []
  end.

(** *** The video details of [enrich_dataset]

    The loop over [recent_videos] that fetches each video's snippet. It
    goes through cache and governor like the calls above, and ends at the
    first refusal of the governor and at the first [HttpError]. *)

(** The entry appended to [video_details], when the response has items. *)
Definition video_detail_of (res : pyval) : result (option pyval) :=
  items ← py_get res "items" PNone;
  if truthy items then
    items ← py_getitem res "items"; item ← py_first items;
    snippet ← py_getitem item "snippet"; title ← py_getitem snippet "title";
    items ← py_getitem res "items"; item ← py_first items;
    snippet ← py_getitem item "snippet"; description ← py_getitem snippet "description";
    items ← py_getitem res "items"; item ← py_first items;
    snippet ← py_getitem item "snippet"; tags ← py_get snippet "tags" (PList []);
    Ok (Some (PDict [("title", title); ("description", description); ("tags", tags)]))
  else Ok None.

Definition append_detail (video_details : list pyval) (entry : option pyval) : list pyval :=
  match entry with
  | Some d => video_details ++ [d]
  | None => video_details
  end.

Fixpoint collect_video_details
    (recent_videos : list pyval) (video_details : list pyval) (w : world)
  : result (list pyval) * world :=
  match recent_videos with
  | [] => (Ok video_details, w)
  | vid_id :: rest =>
      let params := [("id", vid_id); ("part", PStr "snippet")] in
      let cache_key := get_cache_key float_repr "videos_snippet" params in
      match get_cached_response cache_key w with
      | (Raise x, w1) => (Raise x, w1)
      | (Ok cached_response, w1) =>
          if truthy cached_response then
            match video_detail_of cached_response with
            | Raise x => (Raise x, w1)
            | Ok entry => collect_video_details rest (append_detail video_details entry) w1
            end
          else
            match throttle_api_call w1 with
            | (false, w2) => (Ok video_details, w2)
            | (true, w2) =>
                match execute youtube w2 with
                | (Reply vid_res, w3) =>
                    let w4 := cache_response cache_key vid_res w3 in
                    match video_detail_of vid_res with
                    | Raise x => (Raise x, w4)
                    | Ok entry =>
                        collect_video_details rest (append_detail video_details entry) w4
                    end
                | (HttpError e, w3) =>
                    (Ok video_details, (handle_api_error e "video_details" w3).2)
                end
            end
      end
  end.

End Sub_calls.

(** ** Evidence from the content ratings

    The part of the loop of [enrich_dataset] that reduces the content
    ratings of the recent videos to [yt_agerestricted] and
    [video_board_max_age]. *)

(** [any(r.get("ytRating") == "ytAgeRestricted" for r in ratings)]: the
    ratings after the first restricted one are not looked at. *)
Fixpoint any_age_restricted (ratings : list pyval) : result bool :=
  match ratings with
  | [] => Ok false
  | r :: rest =>
      rating ← py_get r "ytRating" PNone;
      match rating with
      | PStr "ytAgeRestricted" => Ok true
      | _ => any_age_restricted rest
      end
  end.

(** [str.isdigit] on code points below 256: the digits 0-9 and the
    superscripts U+00B2, U+00B3 and U+00B9 count as digits; the empty
    string does not pass. *)
Definition is_ascii_digit (c : ascii) : bool :=
  let n := N_of_ascii c in ((48 <=? n) && (n <=? 57))%N.

Definition is_superscript_digit (c : ascii) : bool :=
  let n := N_of_ascii c in ((n =? 178) || (n =? 179) || (n =? 185))%N.

Definition py_isdigit (s : string) : bool :=
  match s with
  | EmptyString => false
  | _ => forallb (fun c => is_ascii_digit c || is_superscript_digit c)
                 (list_ascii_of_string s)
  end.

(** [int(s)] for a string that passed [isdigit]: the superscripts are no
    decimal digits, and [int] raises [ValueError] on them. *)
Definition py_int_digits (s : string) : option Z :=
  fold_left (fun acc c =>
               match acc with
               | Some n =>
                   if is_ascii_digit c
                   then Some (10 * n + (Z.of_N (N_of_ascii c) - 48))%Z
                   else None
               | None => None
               end)
            (list_ascii_of_string s) (Some 0%Z).

(** What the rating loop can end with: the list of ages, a [ValueError]
    from [int], or another exception. *)
Inductive ages_result : Type :=
  | Ages (board_ages : list Z)
  | IntValueError
  | AgesRaise (e : pyexn).

(** [for val in r.values(): if isinstance(val, str) and val.isdigit():
    board_ages.append(int(val))]. *)
Fixpoint scan_rating_values (values : list pyval) (board_ages : list Z) : option (list Z) :=
  match values with
  | [] => Some board_ages
  | PStr s :: rest =>
      if py_isdigit s then
        match py_int_digits s with
        | Some n => scan_rating_values rest (board_ages ++ [n])
        | None => None
        end
      else scan_rating_values rest board_ages
  | _ :: rest => scan_rating_values rest board_ages
  end.

Fixpoint collect_board_ages (ratings : list pyval) (board_ages : list Z) : ages_result :=
  match ratings with
  | [] => Ages board_ages
  | PDict d :: rest =>
      match scan_rating_values (map snd d) board_ages with
      | Some ages => collect_board_ages rest ages
      | None => IntValueError
      end
  | _ :: rest => AgesRaise AttributeError
  end.

(** A string of digits found as a value in one of the rating objects: what
    the loop above takes for the age of a regional rating board. *)
Definition digit_value (ratings : list pyval) (s : string) : Prop :=
  exists d : list (string * pyval),
    In (PDict d) ratings /\ In (PStr s) (map snd d) /\ py_isdigit s = true.

(** ** kidSAFE listing

    [is_kidsafe_listed(channel_name)], given what the request for the
    certification page came back with: the text of the page, or nothing when
    the request raised [RequestException]. *)
Definition is_kidsafe_listed (page : option string) (channel_name : string) : bool :=
  match page with
  | None => false
  | Some text => contains (lower channel_name) (lower text)
  end.

(** ** Notions used in the properties below *)

(** The keys that [adjudicate_evidence] reads. *)
Definition adjudication_keys : list string :=
  [ "made_for_kids"; "common_sense_age"; "kidsafe"; "yt_agerestricted";
    "video_board_max_age"; "is_educational_content"; "is_explicit_adult_content";
    "is_drama_controversy_heavy"; "is_adult_personality_heavy";
    "is_mature_themes_heavy"; "is_mature_gaming_focused";
    "total_adult_content_score"; "adult_keywords_detected"; "adult_keyword_frequency";
    "mature_language_detected"; "profanity_frequency"; "gaming_mature_rating";
    "mature_game_count" ].

(** The eleven signals whose truth alone decides a rule. *)
Definition flag_keys : list string :=
  [ "made_for_kids"; "common_sense_age"; "kidsafe"; "yt_agerestricted";
    "video_board_max_age"; "is_educational_content"; "is_explicit_adult_content";
    "is_drama_controversy_heavy"; "is_adult_personality_heavy";
    "is_mature_themes_heavy"; "is_mature_gaming_focused" ].

(** The calls counted in the current minute window took their tenth of a
    second each, and there are at most 601 of them. *)
Definition minute_paced (w : world) : Prop :=
  (0 <= API_CALLS_MADE (gov w) <= 601)%Z
  /\ (inject_Z (API_CALLS_MADE (gov w)) * (1 # 10) <= clock w - LAST_CALL_TIME (gov w))%Q.

(** The bag of a channel for which none of the five signals of official
    and third-party sources holds, with the scorer's report merged in. *)
Definition scored_only_bag (videos : list video) (channel_description : string)
  : gmap string pyval :=
  build_evidence (Some (PBool false, false, [])) None false
    (Some (analyze_content_maturity videos channel_description)).

(** *** Worlds and remote APIs used in the examples below *)

Definition blippi_key : string := sub_call_key no_floats (ResolveChannelId "Blippi").

(** The cache right after the search result for Blippi was stored. *)
Definition cached_search_world : world :=
  cache_response blippi_key search_response (fresh_world 1700000000 []).

(** The cache holding an empty search response for Blippi. *)
Definition empty_cached_world : world :=
  cache_response blippi_key (PDict []) (fresh_world 1700000000 []).

(** A remote API that is out of order. *)
Definition failing_youtube (request : nat) : api_reply :=
  HttpError {| status := 500; message := "backendError" |}.

(** Two videos that the scorer cannot tell apart: the same title and tags
    up to letter case, and descriptions whose first 500 characters are the
    same up to letter case. *)
Definition scored_alike (v v' : video) : Prop :=
  lower (default "" (title v)) = lower (default "" (title v'))
  /\ lower (take 500 (default "" (description v)))
     = lower (take 500 (default "" (description v')))
  /\ lower (join " " (default [] (tags v))) = lower (join " " (default [] (tags v'))).


(** * Properties *)

(** ** Adjudicator *)

Example format_1f_3 : format_1f (PFloat 3) = Ok "3.0".
Proof. vm_compute. reflexivity. Qed.
Example format_1f_quarter : format_1f (PFloat (1 # 4)) = Ok "0.2".
Proof. vm_compute. reflexivity. Qed.
Example format_1f_neg : format_1f (PFloat (- (1 # 25))) = Ok "-0.0".
Proof. vm_compute. reflexivity. Qed.
Example format_1f_big : format_1f (PFloat (1234 # 100)) = Ok "12.3".
Proof. vm_compute. reflexivity. Qed.
Example format_1f_int : format_1f (PInt 7) = Ok "7.0".
Proof. vm_compute. reflexivity. Qed.

(** An integer of more than 53 bits is printed with the digits of the
    nearest float, and one beyond the floats is not printed at all. *)
Example format_1f_int_rounded :
  format_1f (PInt (2 ^ 53 + 1)) = Ok "9007199254740992.0"
  /\ format_1f (PInt (2 ^ 53 + 3)) = Ok "9007199254740996.0".
Proof. vm_compute. split; reflexivity. Qed.
Example format_1f_int_overflow : format_1f (PInt (10 ^ 400)) = Raise OverflowError.
Proof. vm_compute. reflexivity. Qed.
Example float_of_int_limit :
  float_of_int DBL_MAX = Ok (inject_Z DBL_MAX)
  /\ float_of_int (2 ^ 1024 - 2 ^ 970 - 1) = Ok (inject_Z DBL_MAX)
  /\ float_of_int (2 ^ 1024 - 2 ^ 970) = Raise OverflowError.
Proof. vm_compute. repeat split; reflexivity. Qed.

Lemma nearest_double_in_range (n : Z) :
  (0 <= n <= DBL_MAX)%Z -> (nearest_double n < 2 ^ 1024)%Z.
Proof.
  unfold nearest_double, DBL_MAX. intros [H0 Hn].
  assert (Hp : (0 < 2 ^ 970)%Z) by (apply Z.pow_pos_nonneg; lia).
  assert (H971 : (2 ^ 971 = 2 * 2 ^ 970)%Z)
    by (change 971%Z with (Z.succ 970); apply Z.pow_succ_r; lia).
  assert (Htop : (2 ^ 971 <= 2 ^ 1024)%Z) by (apply Z.pow_le_mono_r; lia).
  destruct (Z.leb_spec (Z.log2 n + 1) 53) as [Hb|Hb]; [lia|].
  assert (Hpos : (0 < n)%Z).
  { destruct (Z.eq_dec n 0) as [->|]; [|lia]. change (Z.log2 0) with 0%Z in Hb. lia. }
  assert (Hlog : (Z.log2 n < 1024)%Z) by (apply Z.log2_lt_pow2; lia).
  set (k := (Z.log2 n + 1 - 54)%Z).
  replace (Z.log2 n + 1 - 53)%Z with (Z.succ k) by (unfold k; lia).
  rewrite Z.pow_succ_r by (unfold k; lia).
  assert (Hk : (0 < 2 ^ k <= 2 ^ 970)%Z).
  { split; [apply Z.pow_pos_nonneg; unfold k; lia|apply Z.pow_le_mono_r; unfold k; lia]. }
  pose proof (Z.div_mod n (2 * 2 ^ k) ltac:(lia)) as Hdm.
  pose proof (Z.mod_pos_bound n (2 * 2 ^ k) ltac:(lia)) as Hmod.
  set (m := (n / (2 * 2 ^ k))%Z) in *. set (r := (n mod (2 * 2 ^ k))%Z) in *.
  set (u := (2 ^ k)%Z) in *.
  destruct ((u <? r)%Z || ((r =? u)%Z && Z.odd m)) eqn:Hup.
  - assert (Hr : (u <= r)%Z).
    { apply orb_true_iff in Hup as [Hlt|Heq]; [apply Z.ltb_lt in Hlt; lia|].
      apply andb_true_iff in Heq as [Heq _]. apply Z.eqb_eq in Heq. lia. }
    replace ((m + 1) * (2 * u))%Z with (2 * u * m + 2 * u)%Z by ring. lia.
  - replace (m * (2 * u))%Z with (2 * u * m)%Z by ring. lia.
Qed.

Lemma float_of_int_in_range (z : Z) :
  (0 <= z <= DBL_MAX)%Z -> exists q : Q, float_of_int z = Ok q.
Proof.
  intros Hz. unfold float_of_int.
  pose proof (nearest_double_in_range (Z.abs z) ltac:(lia)) as Hr.
  destruct (Z.leb_spec (2 ^ 1024) (nearest_double (Z.abs z))); [lia|eauto].
Qed.

(** A score that passed the comparison with 3 can be printed, unless it is
    an integer too large for a float. *)
Lemma format_1f_score (v : pyval) :
  py_ge v 3 = Ok true ->
  (forall z, v = PInt z -> (z <= DBL_MAX)%Z) ->
  exists text : string, format_1f v = Ok text.
Proof.
  unfold py_ge. intros Hge Hrange.
  destruct v as [|b|z|q|s|l|d]; simpl in Hge; try discriminate.
  - destruct b; vm_compute; eauto.
  - injection Hge as Hge. apply Qle_bool_iff in Hge. rewrite <- Zle_Qle in Hge.
    simpl. destruct (float_of_int_in_range z) as [q ->]; [|simpl; eauto].
    split; [lia|]. now apply Hrange.
  - simpl. eauto.
Qed.

Ltac unfold_result := unfold mbind, result_bind, mret, result_ret in *.


Lemma adjudicate_table (e : gmap string pyval) (name : string) :
  first_match precedence_table e = (d ← adjudicate_evidence e name; Ok (Some d)).
Proof.
  unfold adjudicate_evidence, precedence_table, first_match, flag_rule, value_rule,
    count_rule; cbn [cond outcome]; unfold_result.
  repeat match goal with
         | |- context [if truthy ?v then _ else _] => destruct (truthy v); try reflexivity
         end;
  repeat match goal with
         | |- context [match ?c with Ok _ => _ | Raise _ => _ end] =>
             destruct c as [[|]|]; try reflexivity
         end;
  destruct (format_1f _); reflexivity.
Qed.



Lemma py_ge_numeric (v : pyval) (n : Z) :
  is_Some (as_number v) -> exists b, py_ge v n = Ok b.
Proof. intros [q Hq]. unfold py_ge. rewrite Hq. eauto. Qed.

Lemma dict_get_or_numeric (e : gmap string pyval) (k : string) :
  numeric_field e k -> is_Some (as_number (dict_get_or e k (PInt 0))).
Proof.
  intros H. unfold dict_get_or. destruct (e !! k) as [v|] eqn:Hk; simpl; eauto.
Qed.

Lemma flag_and_ge_numeric (e : gmap string pyval) (flag count : string) (n : Z) :
  numeric_field e count -> exists b, flag_and_ge e flag count n = Ok b.
Proof.
  intros H. unfold flag_and_ge. destruct (truthy _); eauto.
  apply py_ge_numeric, dict_get_or_numeric, H.
Qed.

Lemma adjudicate_returns (e : gmap string pyval) (name : string) :
  evidence_well_typed e -> exists d : decision, adjudicate_evidence e name = Ok d.
Proof.
  intros (Hs & Hrange & Ha & Hp & Hg).
  unfold adjudicate_evidence.
  repeat match goal with
         | |- context [if truthy ?v then _ else _] => destruct (truthy v); eauto
         end.
  destruct (py_ge_numeric _ 3 (dict_get_or_numeric e _ Hs)) as [b1 Hb1].
  rewrite Hb1.
  destruct (flag_and_ge_numeric e "adult_keywords_detected" _ 2 Ha) as [b2 ->].
  destruct (flag_and_ge_numeric e "mature_language_detected" _ 3 Hp) as [b3 ->].
  destruct (flag_and_ge_numeric e "gaming_mature_rating" _ 3 Hg) as [b4 ->].
  unfold_result. destruct b1; [|destruct b2, b3, b4; eauto].
  destruct (format_1f_score _ Hb1) as [text ->]; [|eauto].
  intros z Hz. unfold dict_get_or in Hz.
  destruct (e !! "total_adult_content_score") as [v|] eqn:Hv; simpl in Hz.
  - subst v. now apply Hrange.
  - injection Hz as <-. unfold DBL_MAX. apply Z.lt_le_incl, Z.lt_0_sub, Z.pow_lt_mono_r; lia.
Qed.

Lemma first_match_inv (rules : list rule) (e : gmap string pyval) (d : decision) :
  first_match rules e = Ok (Some d) ->
  exists (i : nat) (r : rule),
    rules !! i = Some r
    /\ (forall j r', (j < i)%nat -> rules !! j = Some r' -> cond r' e = Ok false)
    /\ cond r e = Ok true
    /\ outcome r e = Ok d.
Proof.
  induction rules as [|r0 rest IH]; simpl; unfold_result; [discriminate|].
  destruct (cond r0 e) as [[|]|] eqn:Hc; [| |discriminate].
  - destruct (outcome r0 e) as [d0|] eqn:Ho; [|discriminate].
    intros [= <-]. exists 0%nat, r0. repeat split; auto. intros j r' Hj. lia.
  - intros H. destruct (IH H) as (i & r & Hi & Hbefore & Hr & Hd).
    exists (S i), r. repeat split; auto.
    intros [|j] r' Hj Hr'; simpl in Hr'; [congruence|].
    apply (Hbefore j); auto; lia.
Qed.

(** On a well-typed bag some rule of the table always decides: the result
    is the outcome of the first rule that holds. *)
Lemma adjudicate_decided_by_table (e : gmap string pyval) (name : string) :
  evidence_well_typed e ->
  exists (i : nat) (r : rule) (d : decision),
    precedence_table !! i = Some r
    /\ (forall j r', (j < i)%nat -> precedence_table !! j = Some r' -> cond r' e = Ok false)
    /\ cond r e = Ok true
    /\ outcome r e = Ok d
    /\ adjudicate_evidence e name = Ok d.
Proof.
  intros He. destruct (adjudicate_returns e name He) as [d Hd].
  pose proof (adjudicate_table e name) as Ht. rewrite Hd in Ht. unfold_result.
  destruct (first_match_inv _ e d Ht) as (i & r & Hi & Hbefore & Hr & Ho).
  exists i, r, d. auto.
Qed.

(** C2 as stated fails: not every evidence bag gets a decision. On a bag
    that stores [None] under [total_adult_content_score] and has no flag
    set, the comparison [>= 3] raises [TypeError], and no decision is
    returned. *)
Lemma adjudicate_untyped_score :
  adjudicate_evidence (<["total_adult_content_score" := PNone]> ∅) "" = Raise TypeError
  /\ ~ exists d : decision,
        adjudicate_evidence (<["total_adult_content_score" := PNone]> ∅) "" = Ok d.
Proof.
  assert (H : adjudicate_evidence (<["total_adult_content_score" := PNone]> ∅) ""
              = Raise TypeError) by (vm_compute; reflexivity).
  split; [exact H|]. intros [d Hd]. rewrite H in Hd. discriminate.
Qed.

(** So does an integer score that no float can hold: the comparison
    passes, and printing the score into the note raises [OverflowError]. *)
Example adjudicate_unprintable_score :
  adjudicate_evidence (<["total_adult_content_score" := PInt (10 ^ 400)]> ∅) ""
  = Raise OverflowError.
Proof. vm_compute. reflexivity. Qed.

(** C2, as the code has it. [adjudicate_evidence] has no hidden input,
    and it is total on the evidence bags of the data model: on every bag
    (the empty bag among them) in which the composite score and the three
    frequency counts, where present, are numbers, an integer score being one
    that a float can hold, it returns a decision and raises nothing, and any
    two calls on that bag, whatever the channel name passed along, return the
    same (age, source label, note). *)
Theorem adjudicate_total_deterministic
    (e : gmap string pyval) (name1 name2 : string) :
  evidence_well_typed e ->
  exists d : decision,
    adjudicate_evidence e name1 = Ok d /\ adjudicate_evidence e name2 = Ok d.
Proof.
  intros He. destruct (adjudicate_returns e name1 He) as [d Hd].
  exists d. split; [exact Hd|]. exact Hd.
Qed.

Lemma adjudicate_total_deterministic_witness :
  exists d : decision,
    adjudicate_evidence scored_bag "a" = Ok d /\ adjudicate_evidence scored_bag "b" = Ok d.
Proof.
  apply (adjudicate_total_deterministic scored_bag "a" "b").
  unfold evidence_well_typed, numeric_field, score_in_float_range.
  repeat split; intros v Hv; vm_compute in Hv; try discriminate;
    injection Hv as <-; first [solve [simpl; eauto]|vm_compute; intros [=]].
Defined.

Example adjudicate_scored_bag :
  adjudicate_evidence scored_bag ""
  = Ok (PInt 18, "AdultContentScore", "High adult content score: 5.0").
Proof. vm_compute. reflexivity. Qed.

Example adjudicate_empty_bag :
  adjudicate_evidence ∅ ""
  = Ok (PInt 13, "Default", "Fallback to YouTube minimum age per policy").
Proof. vm_compute. reflexivity. Qed.


Lemma dict_get_delete_ne (e : gmap string pyval) (k k' : string) :
  k <> k' -> dict_get (delete k e) k' = dict_get e k'.
Proof. intros H. unfold dict_get. now rewrite lookup_delete_ne. Qed.

Lemma dict_get_or_delete_ne (e : gmap string pyval) (k k' : string) (d : pyval) :
  k <> k' -> dict_get_or (delete k e) k' d = dict_get_or e k' d.
Proof. intros H. unfold dict_get_or. now rewrite lookup_delete_ne. Qed.

(** Deleting a key whose value is falsy changes no truth value. *)
Lemma truthy_dict_get_delete (e : gmap string pyval) (k k' : string) :
  truthy (dict_get e k) = false ->
  truthy (dict_get (delete k e) k') = truthy (dict_get e k').
Proof.
  intros H. destruct (decide (k = k')) as [<-|Hne].
  - rewrite H. unfold dict_get. now rewrite lookup_delete_eq.
  - now rewrite dict_get_delete_ne.
Qed.

(** C10. A [common_sense_age] or [video_board_max_age] that is present
    with the value 0 is treated exactly as an absent one: the result equals
    the result on the bag without that key, and it never carries the label of
    the expert-recommendation, respectively regional-board, rule. *)
Theorem zero_age_treated_as_absent
    (e : gmap string pyval) (name k label : string) :
  (k, label) = ("common_sense_age", "CommonSenseMedia")
  \/ (k, label) = ("video_board_max_age", "RegionalBoardMax") ->
  e !! k = Some (PInt 0) ->
  adjudicate_evidence e name = adjudicate_evidence (delete k e) name
  /\ forall d : decision, adjudicate_evidence e name = Ok d -> d.1.2 <> label.
Proof.
  intros Hk H0.
  assert (Hfalse : truthy (dict_get e k) = false).
  { unfold dict_get. rewrite H0. reflexivity. }
  split.
  - unfold adjudicate_evidence, flag_and_ge.
    rewrite !(truthy_dict_get_delete e k) by exact Hfalse.
    destruct Hk as [[= -> ->]|[= -> ->]]; rewrite Hfalse; cbv iota;
      rewrite ?dict_get_delete_ne, !dict_get_or_delete_ne by (intros [=]);
      reflexivity.
  - intros d. unfold adjudicate_evidence, flag_and_ge. unfold_result.
    destruct Hk as [[= -> ->]|[= -> ->]]; rewrite ?Hfalse;
      repeat match goal with
             | |- context [if truthy ?v then _ else _] => destruct (truthy v)
             | |- context [match ?c with Ok _ => _ | Raise _ => _ end] =>
                 destruct c as [[|]|]
             end;
      intros [= <-]; simpl; discriminate.
Qed.

Lemma zero_age_treated_as_absent_witness :
  adjudicate_evidence zero_age_bag "c"
  = adjudicate_evidence (delete "common_sense_age" zero_age_bag) "c"
  /\ forall d : decision,
       adjudicate_evidence zero_age_bag "c" = Ok d -> d.1.2 <> "CommonSenseMedia".
Proof.
  apply (zero_age_treated_as_absent zero_age_bag "c" "common_sense_age" "CommonSenseMedia").
  - left; reflexivity.
  - reflexivity.
Defined.

Example zero_age_falls_through :
  adjudicate_evidence zero_age_bag "c"
  = Ok (PInt 13, "EducationalContent", "Educational/instructional content detected").
Proof. vm_compute. reflexivity. Qed.

(** ** Cache key *)

Example md5_empty : MD5.hexdigest [] = "d41d8cd98f00b204e9800998ecf8427e".
Proof. vm_compute. reflexivity. Qed.
Example md5_abc : MD5.hexdigest (utf8_encode "abc") = "900150983cd24fb0d6963f7d28e17f72".
Proof. vm_compute. reflexivity. Qed.
Example md5_two_blocks :
  MD5.hexdigest (utf8_encode
    "aaaaaaaaaaaaaaaaaaaaaaaaaaaaaaaaaaaaaaaaaaaaaaaaaaaaaaaaaaaaaaaaaaaaaa")
  = "0f5c6c4e740bfcc08c3c26ccb2673d46".
Proof. vm_compute. reflexivity. Qed.

Example get_cache_key_search :
  get_cache_key (fun _ => "") "search"
    [("q", PStr "Blippi"); ("type", PStr "channel"); ("part", PStr "snippet");
     ("maxResults", PInt 1)]
  = "ed2846080c7400bf5b3dc9768dc54463".
Proof. vm_compute. reflexivity. Qed.

#[local] Instance key_le_trans : Transitive key_le.
Proof. intros x y z. unfold key_le. apply transitivity. Qed.

#[local] Instance key_le_total : Total key_le.
Proof. intros x y. unfold key_le. apply total, _. Qed.

Lemma hex_length (bs : list Z) : String.length (MD5.hex bs) = (2 * length bs)%nat.
Proof. induction bs as [|b bs IH]; simpl; [reflexivity|]. rewrite IH. lia. Qed.

Lemma hexdigest_length (msg : list byte) : String.length (MD5.hexdigest msg) = 32%nat.
Proof. unfold MD5.hexdigest, MD5.digest. rewrite hex_length. reflexivity. Qed.

Lemma nodup_keys_functional {A : Type} (l : list (string * A)) (k : string) (v1 v2 : A) :
  NoDup l.*1 -> (k, v1) ∈ l -> (k, v2) ∈ l -> v1 = v2.
Proof.
  induction l as [|[k0 v0] l IH]; intros Hnd H1 H2.
  - inversion H1.
  - apply NoDup_cons in Hnd as [Hnotin Hnd].
    apply elem_of_cons in H1 as [[= -> ->]|H1]; apply elem_of_cons in H2 as [[= ->]|H2].
    + reflexivity.
    + exfalso. apply Hnotin. apply list_elem_of_fmap. exists (k0, v2). auto.
    + exfalso. apply Hnotin. apply list_elem_of_fmap. exists (k0, v1). auto.
    + now apply IH.
Qed.

(** Sorting the items of a dictionary forgets the insertion order. *)
Lemma sorted_items_unique (l1 l2 : list (string * string)) :
  NoDup l1.*1 -> l1 ≡ₚ l2 -> merge_sort key_le l1 = merge_sort key_le l2.
Proof.
  intros Hnd Hperm.
  apply (Sorted_unique_strong key_le).
  - intros [k1 v1] [k2 v2] H1 H2 H12 H21.
    rewrite merge_sort_Permutation in H1. rewrite merge_sort_Permutation, <- Hperm in H2.
    assert (k1 = k2) as <-.
    { apply (anti_symm String.le); assumption. }
    f_equal. eapply nodup_keys_functional; eauto.
  - apply Sorted_merge_sort, _.
  - apply Sorted_merge_sort, _.
  - now rewrite !merge_sort_Permutation.
Qed.

(** C4. The cache key does not depend on the insertion order of the
    parameters: two mappings with the same items in different orders get the
    same key, the key is a function of (endpoint, params) alone, and it always
    has 32 characters. *)
Theorem get_cache_key_order_independent
    (float_repr : Q -> string) (endpoint : string) (p1 p2 : list (string * pyval)) :
  NoDup p1.*1 ->
  p1 ≡ₚ p2 ->
  get_cache_key float_repr endpoint p1 = get_cache_key float_repr endpoint p2
  /\ String.length (get_cache_key float_repr endpoint p1) = 32%nat.
Proof.
  intros Hnd Hperm. split; [|apply hexdigest_length].
  unfold get_cache_key. cbn [json_dumps].
  set (render := fun kv : string * pyval =>
                   match kv with (k, x) => (k, json_dumps float_repr x) end).
  rewrite (sorted_items_unique (map render p1) (map render p2)); [reflexivity| |].
  - replace (map render p1).*1 with p1.*1; [exact Hnd|].
    clear. induction p1 as [|[k v] l IH]; [reflexivity|]. cbn. now f_equal.
  - now apply Permutation_map.
Qed.

Lemma get_cache_key_order_independent_witness :
  get_cache_key (fun _ => "") "search"
    [("q", PStr "Blippi"); ("type", PStr "channel"); ("part", PStr "snippet");
     ("maxResults", PInt 1)]
  = get_cache_key (fun _ => "") "search"
    [("maxResults", PInt 1); ("part", PStr "snippet"); ("q", PStr "Blippi");
     ("type", PStr "channel")]
  /\ String.length
       (get_cache_key (fun _ => "") "search"
          [("q", PStr "Blippi"); ("type", PStr "channel"); ("part", PStr "snippet");
           ("maxResults", PInt 1)]) = 32%nat.
Proof.
  apply get_cache_key_order_independent.
  - apply (bool_decide_unpack _). vm_compute. exact I.
  - apply (Permutation_trans (l' :=
      [("q", PStr "Blippi"); ("part", PStr "snippet"); ("type", PStr "channel");
       ("maxResults", PInt 1)])); [repeat constructor|].
    apply (Permutation_trans (l' :=
      [("q", PStr "Blippi"); ("part", PStr "snippet"); ("maxResults", PInt 1);
       ("type", PStr "channel")])); [repeat constructor|].
    apply (Permutation_trans (l' :=
      [("part", PStr "snippet"); ("q", PStr "Blippi"); ("maxResults", PInt 1);
       ("type", PStr "channel")])); [repeat constructor|].
    apply (Permutation_trans (l' :=
      [("part", PStr "snippet"); ("maxResults", PInt 1); ("q", PStr "Blippi");
       ("type", PStr "channel")])); repeat constructor.
Defined.

(** ** Response cache *)

Lemma Qltb_lt (a b : Q) : Qltb a b = true <-> (a < b)%Q.
Proof.
  unfold Qltb. rewrite negb_true_iff, <- not_true_iff_false, Qle_bool_iff.
  split; [apply Qnot_le_lt | apply Qlt_not_le].
Qed.

Lemma Qltb_ge (a b : Q) : Qltb a b = false <-> (b <= a)%Q.
Proof. unfold Qltb. rewrite negb_false_iff. apply Qle_bool_iff. Qed.

Lemma get_cached_response_entry (cache_key : string) (w : world) (t : Q) (response : pyval) :
  files (cch w) !! cache_file cache_key
    = Some (JsonText (PDict [("cached_at", PFloat t); ("response", response)])) ->
  get_cached_response cache_key w
  = if Qltb (clock w - t) 86400
    then (Ok response, count_hit w)
    else (Ok PNone, count_miss (unlink (cache_file cache_key) w)).
Proof. intros H. unfold get_cached_response. rewrite H. reflexivity. Qed.

(** C3. After [cache_response] has stored a response under the key of
    (endpoint, params), a later [get_cached_response] with that key, in any
    world where the entry is still the one written, returns that very
    response while the age of the entry is below 86400 seconds; from 86400
    seconds on it returns [None] and removes the file. *)
Theorem cache_round_trip
    (float_repr : Q -> string) (endpoint : string) (params : list (string * pyval))
    (response : pyval) (w w' : world) :
  let key := get_cache_key float_repr endpoint params in
  files (cch w') !! cache_file key
    = files (cch (cache_response key response w)) !! cache_file key ->
  ((clock w' - clock w < 86400)%Q ->
     get_cached_response key w' = (Ok response, count_hit w'))
  /\ ((86400 <= clock w' - clock w)%Q ->
        get_cached_response key w' = (Ok PNone, count_miss (unlink (cache_file key) w'))
        /\ files (cch (count_miss (unlink (cache_file key) w'))) !! cache_file key = None).
Proof.
  intros key Hentry.
  unfold cache_response, write_file in Hentry. cbn in Hentry.
  rewrite lookup_insert_eq in Hentry.
  rewrite (get_cached_response_entry key w' (clock w) response Hentry).
  split.
  - intros Hfresh. apply Qltb_lt in Hfresh. now rewrite Hfresh.
  - intros Hold. apply Qltb_ge in Hold. rewrite Hold. split; [reflexivity|].
    cbn. apply lookup_delete_eq.
Qed.

Lemma cache_round_trip_witness :
  let key := get_cache_key no_floats "search" search_params in
  let w := fresh_world 1700000000 [] in
  let w' := time_sleep 3600 (cache_response key search_response w) in
  get_cached_response key w' = (Ok search_response, count_hit w').
Proof.
  intros key w w'.
  apply (cache_round_trip no_floats "search" search_params search_response w w').
  - reflexivity.
  - vm_compute. reflexivity.
Defined.

Example cache_expired :
  let key := get_cache_key no_floats "search" search_params in
  let w := fresh_world 1700000000 [] in
  let w' := time_sleep 86400 (cache_response key search_response w) in
  (get_cached_response key w').1 = Ok PNone
  /\ files (cch (get_cached_response key w').2) = ∅.
Proof. vm_compute. split; reflexivity. Qed.

(** Text that is no JSON at all is caught and counted as a miss. *)
Lemma get_cached_response_bad_json (cache_key raw : string) (w : world) :
  files (cch w) !! cache_file cache_key = Some (BadJson raw) ->
  get_cached_response cache_key w = (Ok PNone, count_miss w).
Proof. intros H. unfold get_cached_response. now rewrite H. Qed.

(** C7. A cache entry that holds valid JSON which is no object (here the
    text of an empty array) is not turned into a miss: [cached_data.get]
    raises [AttributeError], which the [except] clause does not catch, so
    the exception reaches the caller. *)
Theorem get_cached_response_corrupt_raises :
  get_cached_response "ed2846080c7400bf5b3dc9768dc54463"
    (world_with_file "ed2846080c7400bf5b3dc9768dc54463" (JsonText (PList [])))
  = (Raise AttributeError,
     world_with_file "ed2846080c7400bf5b3dc9768dc54463" (JsonText (PList []))).
Proof. vm_compute. reflexivity. Qed.

(** The same happens for an object whose [cached_at] is no number, and for
    a file that is no text. *)
Example get_cached_response_bad_timestamp :
  (get_cached_response "k"
     (world_with_file "k" (JsonText (PDict [("cached_at", PStr "yesterday")])))).1
  = Raise TypeError.
Proof. vm_compute. reflexivity. Qed.

Example get_cached_response_bad_encoding :
  (get_cached_response "k" (world_with_file "k" (BadEncoding [Byte.xff]))).1
  = Raise UnicodeDecodeError.
Proof. vm_compute. reflexivity. Qed.

(** ** Quota governor *)

Lemma throttle_latched (w : world) :
  QUOTA_EXCEEDED (gov w) = true -> throttle_api_call w = (false, w).
Proof. intros H. unfold throttle_api_call. now rewrite H. Qed.

Lemma calls_latched (w : world) (n : nat) :
  QUOTA_EXCEEDED (gov w) = true -> Nat.iter n call_throttle w = w.
Proof.
  intros H. induction n as [|n IH]; simpl; [reflexivity|].
  rewrite IH. unfold call_throttle. now rewrite throttle_latched.
Qed.

Lemma throttle_trips (w : world) :
  QUOTA_EXCEEDED (gov w) = false ->
  (MAX_CALLS_PER_DAY <= DAILY_CALLS_MADE (gov w))%Z ->
  (clock w - DAILY_RESET_TIME (gov w) <= 86400)%Q ->
  throttle_api_call w = (false, set_quota_exceeded w).
Proof.
  intros Hq Hd Ht. unfold throttle_api_call. rewrite Hq.
  apply Qltb_ge in Ht. rewrite Ht.
  apply Z.leb_le in Hd. now rewrite Hd.
Qed.

(** A call keeps the daily counter within the limit. *)
Lemma call_daily_bound (w : world) :
  (0 <= DAILY_CALLS_MADE (gov w) <= MAX_CALLS_PER_DAY)%Z ->
  (0 <= DAILY_CALLS_MADE (gov (call_throttle w)) <= MAX_CALLS_PER_DAY)%Z.
Proof.
  intros Hw. unfold call_throttle, throttle_api_call.
  destruct (QUOTA_EXCEEDED (gov w)); [exact Hw|].
  destruct (Qltb 86400 _); cbn [reset_daily with_gov gov DAILY_CALLS_MADE].
  - change (MAX_CALLS_PER_DAY <=? 0)%Z with false. cbv iota.
    repeat match goal with
           | |- context [if ?c then _ else _] => destruct c
           end; cbn; unfold MAX_CALLS_PER_DAY; lia.
  - destruct (MAX_CALLS_PER_DAY <=? DAILY_CALLS_MADE (gov w))%Z eqn:Hmax.
    + exact Hw.
    + apply Z.leb_gt in Hmax.
      repeat match goal with
             | |- context [if ?c then _ else _] => destruct c
             end; cbn; lia.
Qed.

Lemma reachable_daily_bound (w : world) :
  reachable w -> (0 <= DAILY_CALLS_MADE (gov w) <= MAX_CALLS_PER_DAY)%Z.
Proof.
  induction 1 as [w _ Hd _|w _ IH|w d _ IH _].
  - rewrite Hd. unfold MAX_CALLS_PER_DAY. lia.
  - now apply call_daily_bound.
  - exact IH.
Qed.

Lemma reachable_iter_calls (n : nat) (w : world) :
  reachable w -> reachable (Nat.iter n call_throttle w).
Proof. intros H. induction n; simpl; [exact H|now apply reachable_call]. Qed.

Lemma world_at_daily_limit_reachable : reachable world_at_daily_limit.
Proof. apply reachable_iter_calls. now apply reachable_start. Qed.

Lemma world_at_daily_limit_state :
  DAILY_CALLS_MADE (gov world_at_daily_limit) = MAX_CALLS_PER_DAY
  /\ QUOTA_EXCEEDED (gov world_at_daily_limit) = false
  /\ Qle_bool (clock world_at_daily_limit - DAILY_RESET_TIME (gov world_at_daily_limit))
       86400 = true.
Proof. vm_compute. repeat split. Qed.

Lemma world_a_day_later_reachable : reachable world_a_day_later.
Proof.
  apply reachable_wait; [apply world_at_daily_limit_reachable|].
  unfold Qle; simpl; lia.
Qed.

(** C5 as stated fails. After exactly [MAX_CALLS_PER_DAY] accepted calls
    the daily counter has reached the limit and the breaker is still open: it
    is the next call that sets it. And when that next call comes more than 24
    hours after the daily reset time, the counter starts again from zero, the
    call is accepted and the breaker stays open. *)
Lemma breaker_not_set_at_limit :
  reachable world_at_daily_limit
  /\ DAILY_CALLS_MADE (gov world_at_daily_limit) = MAX_CALLS_PER_DAY
  /\ QUOTA_EXCEEDED (gov world_at_daily_limit) = false
  /\ reachable world_a_day_later
  /\ DAILY_CALLS_MADE (gov world_a_day_later) = MAX_CALLS_PER_DAY
  /\ (throttle_api_call world_a_day_later).1 = true
  /\ QUOTA_EXCEEDED (gov (throttle_api_call world_a_day_later).2) = false
  /\ DAILY_CALLS_MADE (gov (throttle_api_call world_a_day_later).2) = 1%Z.
Proof.
  split; [apply world_at_daily_limit_reachable|].
  split; [apply world_at_daily_limit_state|].
  split; [apply world_at_daily_limit_state|].
  split; [apply world_a_day_later_reachable|].
  vm_compute. repeat split.
Qed.

(** C5, as the code has it. In every reachable state the daily counter
    stays within the limit. When it has reached the limit and the breaker is
    still open, the next call made within 24 hours of the daily reset time
    sets the breaker and returns false, without sleeping and without touching
    a counter. When the breaker is set, a call returns false and leaves the
    whole state as it is, so any number of further calls does. *)
Theorem breaker_trips_and_latches (w : world) :
  reachable w ->
  (DAILY_CALLS_MADE (gov w) <= MAX_CALLS_PER_DAY)%Z
  /\ (QUOTA_EXCEEDED (gov w) = false ->
      DAILY_CALLS_MADE (gov w) = MAX_CALLS_PER_DAY ->
      (clock w - DAILY_RESET_TIME (gov w) <= 86400)%Q ->
      throttle_api_call w = (false, set_quota_exceeded w))
  /\ (QUOTA_EXCEEDED (gov w) = true ->
      throttle_api_call w = (false, w) /\ forall n, Nat.iter n call_throttle w = w).
Proof.
  intros Hw. split; [apply reachable_daily_bound, Hw|]. split.
  - intros Hq Hd Ht. apply throttle_trips; auto. rewrite Hd. lia.
  - intros Hq. split; [now apply throttle_latched|].
    intros n. now apply calls_latched.
Qed.

Lemma breaker_trips_and_latches_witness :
  throttle_api_call world_at_daily_limit = (false, set_quota_exceeded world_at_daily_limit).
Proof.
  exact (proj1 (proj2 (breaker_trips_and_latches world_at_daily_limit
                         world_at_daily_limit_reachable))
           (proj1 (proj2 world_at_daily_limit_state))
           (proj1 world_at_daily_limit_state)
           (proj1 (Qle_bool_iff _ _) (proj2 (proj2 world_at_daily_limit_state)))).
Defined.

(** ** Gatherer *)

(** The backoff of a rate-limited call lies between 30 and 60 seconds. *)
Lemma handle_api_error_backoff (e : http_error) (op : string) (w : world) :
  status e = 429%Z ->
  (0 <= hd 0 (entropy w) <= 1)%Q ->
  exists d : Q,
    (30 <= d <= 60)%Q
    /\ handle_api_error e op w = (PStr "retry", time_sleep d (random_uniform 30 60 w).2).
Proof.
  intros Hs Hr. unfold handle_api_error. rewrite Hs. cbn [Z.eqb Pos.eqb andb].
  unfold random_uniform. eexists. split; [|reflexivity].
  rewrite Qred_correct. split; nra.
Qed.

Lemma throttle_accepts (w : world) :
  QUOTA_EXCEEDED (gov w) = false ->
  (0 <= DAILY_CALLS_MADE (gov w) < MAX_CALLS_PER_DAY)%Z ->
  exists w' : world,
    throttle_api_call w = (true, w')
    /\ cch w' = cch w
    /\ requests w' = requests w
    /\ QUOTA_EXCEEDED (gov w') = false
    /\ (0 <= DAILY_CALLS_MADE (gov w') <= DAILY_CALLS_MADE (gov w) + 1)%Z.
Proof.
  intros Hq Hd. unfold throttle_api_call. rewrite Hq.
  destruct (Qltb 86400 _); cbn [reset_daily with_gov gov DAILY_CALLS_MADE].
  - change (MAX_CALLS_PER_DAY <=? 0)%Z with false. cbv iota.
    eexists. split; [reflexivity|].
    repeat match goal with
           | |- context [if ?c then _ else _] => destruct c
           end; cbn; repeat split; first [reflexivity | assumption | lia].
  - destruct (MAX_CALLS_PER_DAY <=? DAILY_CALLS_MADE (gov w))%Z eqn:Hmax;
      [apply Z.leb_le in Hmax; lia|].
    eexists. split; [reflexivity|].
    repeat match goal with
           | |- context [if ?c then _ else _] => destruct c
           end; cbn; repeat split; first [reflexivity | assumption | lia].
Qed.

(** A call made more than 24 hours after the daily reset time starts the
    daily count again: whatever the counter had reached, the call is accepted
    and counted as the first of the new day, and the breaker stays open. *)
Lemma throttle_after_daily_window (w : world) :
  QUOTA_EXCEEDED (gov w) = false ->
  (86400 < clock w - DAILY_RESET_TIME (gov w))%Q ->
  (throttle_api_call w).1 = true
  /\ QUOTA_EXCEEDED (gov (throttle_api_call w).2) = false
  /\ DAILY_CALLS_MADE (gov (throttle_api_call w).2) = 1%Z
  /\ DAILY_RESET_TIME (gov (throttle_api_call w).2) = clock w.
Proof.
  intros Hq Hlate. unfold throttle_api_call. rewrite Hq.
  rewrite (proj2 (Qltb_lt _ _) Hlate).
  cbn [reset_daily with_gov gov DAILY_CALLS_MADE].
  change (MAX_CALLS_PER_DAY <=? 0)%Z with false. cbv iota.
  repeat match goal with
         | |- context [if ?c then _ else _] => destruct c
         end; cbn; repeat split; first [reflexivity | assumption].
Qed.

Lemma handle_api_error_retry (e : http_error) (op : string) (w : world) :
  status e = 429%Z ->
  exists w' : world,
    handle_api_error e op w = (PStr "retry", w')
    /\ cch w' = cch w /\ requests w' = requests w /\ gov w' = gov w.
Proof.
  intros Hs. unfold handle_api_error. rewrite Hs. cbn [Z.eqb Pos.eqb andb].
  eexists. split; [reflexivity|]. repeat split.
Qed.

(** The number of requests that one call of [resolve_channel_id] sends has
    no bound other than the stack: when the remote API answers the next [n]
    requests with status 429, the call sends all of them and one more. *)
Lemma resolve_channel_id_requests
    (float_repr : Q -> string) (youtube : nat -> api_reply) (name : string)
    (n depth : nat) (w : world) :
  (n < depth)%nat ->
  files (cch w)
    !! cache_file (get_cache_key float_repr "search"
                     [("q", PStr name); ("type", PStr "channel");
                      ("part", PStr "snippet"); ("maxResults", PInt 1)]) = None ->
  QUOTA_EXCEEDED (gov w) = false ->
  (0 <= DAILY_CALLS_MADE (gov w))%Z ->
  (DAILY_CALLS_MADE (gov w) + Z.of_nat n < MAX_CALLS_PER_DAY)%Z ->
  (forall i, (i < n)%nat ->
     exists e, youtube (requests w + i)%nat = HttpError e /\ status e = 429%Z) ->
  (exists res, youtube (requests w + n)%nat = Reply res) ->
  requests (resolve_channel_id float_repr youtube depth name w).2
  = (requests w + n + 1)%nat.
Proof.
  revert depth w. induction n as [|n IH]; intros depth w Hdepth Hfile Hq Hd0 Hd Hbusy Hok;
    (destruct depth as [|depth]; [lia|]);
    cbn [resolve_channel_id]; unfold get_cached_response; rewrite Hfile;
    cbn [truthy];
    (destruct (throttle_accepts (count_miss w) Hq) as (w2 & -> & Hc2 & Hr2 & Hq2 & Hd2);
       [cbn; lia|]);
    unfold execute; rewrite Hr2; cbn [count_miss with_cch requests gov] in *.
  - destruct Hok as [res Hres]. rewrite Nat.add_0_r in Hres. rewrite Hres.
    cbn. lia.
  - destruct (Hbusy 0%nat) as (e & He & Hs); [lia|].
    rewrite Nat.add_0_r in He. rewrite He.
    match goal with
    | |- context [handle_api_error e ?op ?w3] =>
        destruct (handle_api_error_retry e op w3 Hs) as (w4 & -> & Hc4 & Hr4 & Hg4)
    end.
    cbn [requests] in Hr4. cbn [gov cch] in Hg4, Hc4.
    rewrite IH.
    + rewrite Hr4. lia.
    + lia.
    + rewrite Hc4, Hc2. exact Hfile.
    + now rewrite Hg4.
    + rewrite Hg4. lia.
    + rewrite Hg4. lia.
    + intros i Hi. rewrite Hr4. replace (S (requests w) + i)%nat
        with (requests w + S i)%nat by lia. apply Hbusy. lia.
    + rewrite Hr4. replace (S (requests w) + n)%nat with (requests w + S n)%nat by lia.
      exact Hok.
Qed.

(** C6. With a remote API that signals rate limiting three times in a
    row, a single call of [resolve_channel_id] sends four requests: every 429
    starts the whole function again, and the retried call retries in turn.
    The sub-call does not give up after one retry. *)
Theorem resolve_channel_id_retries_again :
  let run := resolve_channel_id no_floats (rate_limited_youtube 3) 1000 "Blippi"
               (fresh_world 1700000000 [0; 1 # 2; 1 # 3]%Q) in
  run.1 = Ok (PStr "UC5PYHgAzJ1wLEidB58SK6Xw")
  /\ requests run.2 = 4%nat
  /\ sleeps run.2 = [1 # 10; 40; 1 # 10; 45; 1 # 10; 30; 1 # 10]%Q.
Proof. vm_compute. repeat split. Qed.

(** Against a remote API that keeps signalling rate limiting, the retries
    only end when the interpreter runs out of stack. *)
Example resolve_channel_id_recursion_error :
  let run := resolve_channel_id no_floats (rate_limited_youtube 1000) 1000 "Blippi"
               (fresh_world 1700000000 []) in
  run.1 = Raise RecursionError /\ requests run.2 = 1000%nat.
Proof. vm_compute. repeat split. Qed.

(** ** Maturity scorer *)

Lemma count_keywords_hits (kws : list string) (text : string) (weight count : Z) :
  count_keywords kws text weight count = (count + weight * hits kws text)%Z.
Proof.
  unfold count_keywords, hits. revert count.
  induction kws as [|kw kws IH]; intros count; simpl.
  - lia.
  - rewrite IH. destruct (contains kw text); simpl length; lia.
Qed.

Lemma scan_description_count (c : category) (desc : string) (x : counts) :
  count_of c (scan_description desc x)
  = (count_of c x + description_weight c * hits (keywords c) (lower desc))%Z.
Proof.
  destruct c; cbn [count_of scan_description description_weight keywords
    educational_count explicit_count drama_count mature_gaming_count profanity_count
    adult_personality_count mature_themes_count];
    rewrite ?count_keywords_hits; lia.
Qed.

Lemma scan_video_count (c : category) (x : counts) (v : video) :
  count_of c (scan_video x v) = (count_of c x + hits (keywords c) (video_text v))%Z.
Proof.
  destruct c; cbn [count_of scan_video keywords
    educational_count explicit_count drama_count mature_gaming_count profanity_count
    adult_personality_count mature_themes_count];
    rewrite count_keywords_hits; lia.
Qed.

Lemma scan_videos_count (c : category) (videos : list video) (x : counts) :
  count_of c (fold_left scan_video videos x)
  = (count_of c x + video_hits (keywords c) videos)%Z.
Proof.
  revert x. induction videos as [|v videos IH]; intros x; simpl.
  - lia.
  - rewrite IH, scan_video_count. lia.
Qed.

Lemma count_occurrences_closed_form (c : category) (videos : list video) (desc : string) :
  count_of c (count_occurrences videos desc)
  = (description_weight c * hits (keywords c) (lower desc)
     + video_hits (keywords c) videos)%Z.
Proof.
  unfold count_occurrences. rewrite scan_videos_count, scan_description_count.
  destruct c; reflexivity.
Qed.

Ltac lookup_report :=
  unfold analyze_content_maturity; cbn [list_to_map foldr uncurry fst snd];
  repeat (rewrite lookup_insert_ne by (intros [=]));
  rewrite lookup_insert_eq.

Lemma analyze_reports_count (c : category) (videos : list video) (desc : string) :
  analyze_content_maturity videos desc !! count_key c
  = Some (PInt (count_of c (count_occurrences videos desc))).
Proof. destruct c; cbn [count_key]; lookup_report; reflexivity. Qed.

Lemma analyze_reports_score (videos : list video) (desc : string) :
  analyze_content_maturity videos desc !! "total_adult_content_score"
  = Some (PFloat (adult_content_score (count_occurrences videos desc))).
Proof. lookup_report; reflexivity. Qed.

(** C8 as stated fails for two of the seven categories: a mature-gaming
    keyword in the channel description is a hit there, and the count stays 0
    instead of going up by 2. *)
Lemma description_hit_not_counted :
  hits (keywords MatureGaming) (lower "DOOM walkthroughs") = 1%Z
  /\ analyze_content_maturity [] "DOOM walkthroughs" !! count_key MatureGaming
     <> Some (PInt (stated_description_weight MatureGaming
                    * hits (keywords MatureGaming) (lower "DOOM walkthroughs")
                    + video_hits (keywords MatureGaming) [])).
Proof.
  split; [vm_compute; reflexivity|].
  rewrite analyze_reports_count. vm_compute. discriminate.
Qed.

Example profanity_in_description_not_counted :
  hits (keywords Profanity) (lower "what the hell") = 1%Z
  /\ analyze_content_maturity [] "what the hell" !! count_key Profanity = Some (PInt 0).
Proof.
  split; [vm_compute; reflexivity|].
  rewrite analyze_reports_count. vm_compute. reflexivity.
Qed.

(** C8, as the code has it. For each category the reported count is the
    description weight times the number of its keywords found in the
    lower-cased channel description, plus one for every keyword found in the
    text of every video (lower-cased title, the first 500 characters of the
    lower-cased description, lower-cased tags). The description weight is 3
    for explicit-adult, 2 for educational, drama, adult-lifestyle and
    mature-themes, and 0 for mature-gaming and profanity, whose keywords are
    not matched against the channel description. *)
Theorem description_and_video_weights
    (c : category) (videos : list video) (desc : string) :
  analyze_content_maturity videos desc !! count_key c
  = Some (PInt (description_weight c * hits (keywords c) (lower desc)
                + video_hits (keywords c) videos))
  /\ description_weight c
     = match c with
       | ExplicitAdult => 3
       | MatureGaming | Profanity => 0
       | Educational | Drama | AdultLifestyle | MatureThemes => 2
       end%Z
  /\ forall v : video,
       video_text v
       = lower (default "" (title v)) ++ " "
         ++ take 500 (lower (default "" (description v))) ++ " "
         ++ lower (join " " (default [] (tags v))).
Proof.
  split; [|split].
  - now rewrite analyze_reports_count, count_occurrences_closed_form.
  - destruct c; reflexivity.
  - reflexivity.
Qed.

(** *** Monotonicity *)

Lemma string_app_cons (c : ascii) (a b : string) : String c a ++ b = String c (a ++ b).
Proof. reflexivity. Qed.

Lemma string_app_assoc (a b c : string) : (a ++ b) ++ c = a ++ (b ++ c).
Proof.
  induction a as [|x a IH]; [reflexivity|].
  rewrite !string_app_cons. now rewrite IH.
Qed.

Lemma string_app_nil_r (a : string) : a ++ "" = a.
Proof. induction a as [|x a IH]; [reflexivity|]. rewrite string_app_cons. now rewrite IH. Qed.

Lemma prefix_app (kw text extra : string) :
  String.prefix kw text = true -> String.prefix kw (text ++ extra) = true.
Proof.
  revert text. induction kw as [|k kw IH]; intros text H.
  - now destruct (text ++ extra).
  - destruct text as [|t text]; [discriminate|].
    rewrite string_app_cons. simpl in *.
    destruct (ascii_dec k t); [now apply IH|discriminate].
Qed.

Lemma contains_unfold (kw text : string) :
  contains kw text
  = String.prefix kw text
    || match text with
       | EmptyString => false
       | String _ rest => contains kw rest
       end.
Proof. destruct text; reflexivity. Qed.

Lemma contains_prefix (kw text : string) :
  String.prefix kw text = true -> contains kw text = true.
Proof. intros H. rewrite contains_unfold, H. reflexivity. Qed.

Lemma contains_app (kw text extra : string) :
  contains kw text = true -> contains kw (text ++ extra) = true.
Proof.
  induction text as [|t text IH]; intros H; rewrite contains_unfold in H.
  - rewrite orb_false_r in H.
    apply contains_prefix, (prefix_app kw "" extra H).
  - rewrite string_app_cons, contains_unfold.
    apply orb_true_iff in H as [H|H]; apply orb_true_iff.
    + left. apply (prefix_app kw (String t text) extra H).
    + right. now apply IH.
Qed.

Lemma lower_app (a b : string) : lower (a ++ b) = lower a ++ lower b.
Proof.
  induction a as [|x a IH]; [reflexivity|].
  rewrite string_app_cons. simpl. now rewrite IH.
Qed.

Lemma join_app_prefix (sep : string) (l more : list string) :
  exists rest : string, join sep (l ++ more)%list = join sep l ++ rest.
Proof.
  induction l as [|x l IH].
  - exists (join sep more). reflexivity.
  - destruct IH as [rest IH]. destruct l as [|y l].
    + destruct more as [|m more].
      * exists "". symmetry. apply string_app_nil_r.
      * exists (sep ++ join sep (m :: more)). reflexivity.
    + exists rest. change (join sep ((x :: y :: l) ++ more)%list)
        with (x ++ sep ++ join sep ((y :: l) ++ more)%list).
      rewrite IH. change (join sep (x :: y :: l)) with (x ++ sep ++ join sep (y :: l)).
      now rewrite !string_app_assoc.
Qed.

Lemma hits_mono (kws : list string) (text text' : string) :
  (forall kw, In kw kws -> contains kw text = true -> contains kw text' = true) ->
  (hits kws text <= hits kws text')%Z.
Proof.
  intros H. unfold hits. apply inj_le.
  induction kws as [|kw kws IH]; simpl; [lia|].
  assert (IH' := IH (fun k Hk => H k (or_intror Hk))).
  destruct (contains kw text) eqn:E.
  - rewrite (H kw (or_introl eq_refl) E). simpl. lia.
  - destruct (contains kw text'); simpl; lia.
Qed.

Lemma join_last_prefix (sep : string) (l : list string) (x extra : string) :
  join sep (l ++ [(x ++ extra)%string])%list = join sep (l ++ [x])%list ++ extra.
Proof.
  induction l as [|y l IH]; [reflexivity|].
  destruct l as [|z l].
  - cbn. now rewrite !string_app_assoc.
  - change (join sep ((y :: z :: l) ++ [(x ++ extra)%string])%list)
      with (y ++ sep ++ join sep ((z :: l) ++ [(x ++ extra)%string])%list).
    rewrite IH. change (join sep ((y :: z :: l) ++ [x])%list)
      with (y ++ sep ++ join sep ((z :: l) ++ [x])%list).
    now rewrite !string_app_assoc.
Qed.

(** Adding tags to a video, and appending text to its last tag, both
    append to the tags. *)
Lemma add_tags_appends (t d : option string) (l more : list string) :
  appends_to_tags {| title := t; description := d; tags := Some l |}
                  {| title := t; description := d; tags := Some (l ++ more)%list |}.
Proof. repeat split. apply join_app_prefix. Qed.

Lemma extend_last_tag_appends (t d : option string) (l : list string) (x extra : string) :
  appends_to_tags {| title := t; description := d; tags := Some (l ++ [x])%list |}
                  {| title := t; description := d; tags := Some (l ++ [(x ++ extra)%string])%list |}.
Proof. repeat split. exists extra. apply join_last_prefix. Qed.

Lemma appends_to_tags_video_text (v v' : video) :
  appends_to_tags v v' -> exists rest : string, video_text v' = video_text v ++ rest.
Proof.
  intros (Ht & Hd & extra & Htags). unfold video_text.
  rewrite Ht, Hd, Htags.
  exists (lower extra). rewrite lower_app. now rewrite !string_app_assoc.
Qed.

Lemma video_hits_mono (kws : list string) (videos videos' : list video) :
  Forall2 appends_to_tags videos videos' ->
  (video_hits kws videos <= video_hits kws videos')%Z.
Proof.
  induction 1 as [|v v' videos videos' Hv _ IH]; simpl; [lia|].
  destruct (appends_to_tags_video_text v v' Hv) as [rest ->].
  pose proof (hits_mono kws (video_text v) (video_text v ++ rest)
                (fun kw _ => contains_app kw _ rest)).
  lia.
Qed.

Lemma count_mono (c : category) (videos videos' : list video) (desc extra : string) :
  Forall2 appends_to_tags videos videos' ->
  (count_of c (count_occurrences videos desc)
   <= count_of c (count_occurrences videos' (desc ++ extra)))%Z.
Proof.
  intros Hv. rewrite !count_occurrences_closed_form, lower_app.
  pose proof (video_hits_mono (keywords c) videos videos' Hv).
  pose proof (hits_mono (keywords c) (lower desc) (lower desc ++ lower extra)
                (fun kw _ => contains_app kw _ _)).
  assert (0 <= description_weight c)%Z by (destruct c; simpl; lia).
  nia.
Qed.

(** C9 as stated fails for text appended to a title: the keyword
    ["adult only"] that title and description spell together is broken up by
    the appended [" sex"], a keyword the text already had, and both the
    explicit-adult count and the score go down from 2 to 1. *)
Lemma title_append_decreases_count :
  extends_title split_keyword_video split_keyword_video_longer_title
  /\ analyze_content_maturity [split_keyword_video] "" !! count_key ExplicitAdult
     = Some (PInt 2)
  /\ analyze_content_maturity [split_keyword_video_longer_title] "" !! count_key ExplicitAdult
     = Some (PInt 1)
  /\ analyze_content_maturity [split_keyword_video] "" !! "total_adult_content_score"
     = Some (PFloat 2)
  /\ analyze_content_maturity [split_keyword_video_longer_title] ""
       !! "total_adult_content_score"
     = Some (PFloat 1).
Proof.
  split; [split; [exists " sex"; reflexivity|split; reflexivity]|].
  rewrite !analyze_reports_count, !analyze_reports_score. vm_compute. repeat split.
Qed.

(** What text appended to a title cannot break: a keyword without a space
    lies within the title or within the rest of the video text, and stays
    there. *)
Lemma prefix_before_space (kw a b : string) :
  has_space kw = false ->
  String.prefix kw (a ++ String " " b) = true -> String.prefix kw a = true.
Proof.
  revert a. induction kw as [|k kw IH]; intros a Hs H.
  - now destruct a.
  - simpl in Hs. apply orb_false_iff in Hs as [Hk Hs].
    destruct a as [|c a].
    + simpl in H. destruct (ascii_dec k " ") as [->|]; [discriminate Hk|discriminate H].
    + rewrite string_app_cons in H. simpl in *.
      destruct (ascii_dec k c); [now apply IH|discriminate].
Qed.

Lemma contains_split (kw a b : string) :
  has_space kw = false ->
  contains kw (a ++ String " " b) = true ->
  contains kw a = true \/ contains kw b = true.
Proof.
  intros Hs. induction a as [|c a IH]; intros H; rewrite contains_unfold in H.
  - apply orb_true_iff in H as [H|H]; [|now right].
    left. apply contains_prefix, (prefix_before_space kw "" b Hs H).
  - apply orb_true_iff in H as [H|H].
    + left. apply contains_prefix, (prefix_before_space kw (String c a) b Hs H).
    + destruct (IH H) as [Ha|Hb]; [left|now right].
      rewrite contains_unfold, Ha. apply orb_true_r.
Qed.

Lemma contains_app_r (kw before text : string) :
  contains kw text = true -> contains kw (before ++ text) = true.
Proof.
  intros H. induction before as [|c before IH]; [exact H|].
  rewrite string_app_cons, contains_unfold, IH. apply orb_true_r.
Qed.

Lemma title_append_keeps_single_words (v v' : video) (kw : string) :
  extends_title v v' ->
  has_space kw = false ->
  contains kw (video_text v) = true -> contains kw (video_text v') = true.
Proof.
  intros ((extra & Ht) & Hd & Htags) Hs. unfold video_text.
  rewrite Ht, Hd, Htags, lower_app.
  set (rest := take 500 (lower (default "" (description v))) ++ " "
               ++ lower (join " " (default [] (tags v)))).
  intros H. apply (contains_split kw _ rest Hs) in H as [H|H].
  - rewrite string_app_assoc. now apply contains_app.
  - apply contains_app_r. now apply (contains_app_r kw " ").
Qed.

(** The profanity keywords are single words, so the profanity count is
    safe from text appended to titles. *)
Lemma title_append_profanity (videos videos' : list video) :
  Forall2 extends_title videos videos' ->
  (video_hits profanity_keywords videos <= video_hits profanity_keywords videos')%Z.
Proof.
  induction 1 as [|v v' videos videos' Hv _ IH]; simpl; [lia|].
  assert (hits profanity_keywords (video_text v)
          <= hits profanity_keywords (video_text v'))%Z; [|lia].
  apply hits_mono. intros kw Hkw.
  apply title_append_keeps_single_words; [exact Hv|].
  repeat (destruct Hkw as [<-|Hkw]; [reflexivity|]). destruct Hkw.
Qed.

(** C9, as the code has it. Appending text to the channel description
    and to the tags of videos never decreases the count of any category, nor
    the total adult content score, that [analyze_content_maturity] reports. *)
Theorem scorer_monotone
    (c : category) (videos videos' : list video) (desc extra : string) :
  Forall2 appends_to_tags videos videos' ->
  exists (n n' : Z) (score score' : Q),
    analyze_content_maturity videos desc !! count_key c = Some (PInt n)
    /\ analyze_content_maturity videos' (desc ++ extra) !! count_key c = Some (PInt n')
    /\ (n <= n')%Z
    /\ analyze_content_maturity videos desc !! "total_adult_content_score"
       = Some (PFloat score)
    /\ analyze_content_maturity videos' (desc ++ extra) !! "total_adult_content_score"
       = Some (PFloat score')
    /\ (score <= score')%Q.
Proof.
  intros Hv.
  exists (count_of c (count_occurrences videos desc)),
         (count_of c (count_occurrences videos' (desc ++ extra))),
         (adult_content_score (count_occurrences videos desc)),
         (adult_content_score (count_occurrences videos' (desc ++ extra))).
  rewrite !analyze_reports_count, !analyze_reports_score.
  repeat split; [now apply count_mono|].
  unfold adult_content_score.
  pose proof (count_mono ExplicitAdult videos videos' desc extra Hv) as He.
  pose proof (count_mono AdultLifestyle videos videos' desc extra Hv) as Ha.
  pose proof (count_mono MatureThemes videos videos' desc extra Hv) as Hm.
  cbn [count_of] in He, Ha, Hm.
  rewrite Zle_Qle in He, Ha, Hm. rewrite !Qred_correct. lra.
Qed.

Lemma scorer_monotone_witness :
  exists (n n' : Z) (score score' : Q),
    analyze_content_maturity [split_keyword_video] "family fun" !! count_key ExplicitAdult
    = Some (PInt n)
    /\ analyze_content_maturity
         [{| title := Some "sex adult"; description := Some "only";
             tags := Some ["nsfw"] |}] ("family fun" ++ " and bikini hauls")
         !! count_key ExplicitAdult
       = Some (PInt n')
    /\ (n <= n')%Z
    /\ analyze_content_maturity [split_keyword_video] "family fun"
         !! "total_adult_content_score"
       = Some (PFloat score)
    /\ analyze_content_maturity
         [{| title := Some "sex adult"; description := Some "only";
             tags := Some ["nsfw"] |}] ("family fun" ++ " and bikini hauls")
         !! "total_adult_content_score"
       = Some (PFloat score')
    /\ (score <= score')%Q.
Proof.
  apply (scorer_monotone ExplicitAdult).
  constructor; [|constructor].
  apply (add_tags_appends (Some "sex adult") (Some "only") [] ["nsfw"]).
Defined.

(** ** The bags the driver builds *)

(** Every bag that the loop of [enrich_dataset] hands to the adjudicator
    is well typed: the count and score signals are either missing or the
    numbers [analyze_content_maturity] put there. *)
Lemma build_evidence_well_typed
    (official : option (pyval * bool * list Z)) (csm : option Z) (kidsafe : bool)
    (scored : option (list video * string)) :
  evidence_well_typed
    (build_evidence official csm kidsafe
       (match scored with
        | Some (videos, desc) => Some (analyze_content_maturity videos desc)
        | None => None
        end)).
Proof.
  unfold build_evidence.
  destruct scored as [[videos desc]|].
  - repeat split; intros v Hv.
    + erewrite lookup_union_Some_l in Hv by apply analyze_reports_score.
      injection Hv as <-. simpl. eauto.
    + erewrite lookup_union_Some_l in Hv by apply analyze_reports_score.
      discriminate.
    + erewrite lookup_union_Some_l in Hv by apply (analyze_reports_count ExplicitAdult).
      injection Hv as <-. simpl. eauto.
    + erewrite lookup_union_Some_l in Hv by apply (analyze_reports_count Profanity).
      injection Hv as <-. simpl. eauto.
    + erewrite lookup_union_Some_l in Hv by apply (analyze_reports_count MatureGaming).
      injection Hv as <-. simpl. eauto.
  - repeat split; intros v Hv; exfalso; revert Hv;
      rewrite !lookup_insert_ne by (intros [=]);
      destruct official as [[[mfk r] b]|];
      rewrite ?lookup_insert_ne by (intros [=]);
      rewrite lookup_empty; intros [=].
Qed.

(** So the adjudicator returns a decision for every bag of the driver. *)
Corollary adjudicate_built_evidence
    (official : option (pyval * bool * list Z)) (csm : option Z) (kidsafe : bool)
    (scored : option (list video * string)) (name : string) :
  exists d : decision,
    adjudicate_evidence
      (build_evidence official csm kidsafe
         (match scored with
          | Some (videos, desc) => Some (analyze_content_maturity videos desc)
          | None => None
          end)) name = Ok d.
Proof.
  apply adjudicate_returns, build_evidence_well_typed.
Qed.

(** * Further properties *)

(** ** Response cache: accounting and independence of keys *)

Lemma string_app_inv_tail (a b s : string) : a ++ s = b ++ s -> a = b.
Proof.
  assert (Hlen : forall x y : string,
             String.length (x ++ y) = (String.length x + String.length y)%nat).
  { intros x y. induction x as [|c x IH]; [reflexivity|].
    rewrite string_app_cons. simpl. now rewrite IH. }
  revert b. induction a as [|c a IH]; intros [|d b] H.
  - reflexivity.
  - apply (f_equal String.length) in H. rewrite !Hlen in H. simpl in H. lia.
  - apply (f_equal String.length) in H. rewrite !Hlen in H. simpl in H. lia.
  - rewrite !string_app_cons in H. injection H as -> H. f_equal. now apply IH.
Qed.

Lemma cache_file_inj (k k' : string) : cache_file k = cache_file k' -> k = k'.
Proof. apply string_app_inv_tail. Qed.

(** X1. A lookup that returns counts exactly once, as a hit or as a miss,
    and whatever it returns other than [None] was counted as a hit; a lookup
    that raises leaves the whole state as it was. The governor, the clock and
    the request count are never touched. *)
Theorem cache_lookup_accounting (cache_key : string) (w : world) :
  let r := (get_cached_response cache_key w).1 in
  let w' := (get_cached_response cache_key w).2 in
  (forall v, r = Ok v ->
     (CACHE_HITS (cch w') + CACHE_MISSES (cch w')
      = CACHE_HITS (cch w) + CACHE_MISSES (cch w) + 1)%Z
     /\ (v <> PNone -> CACHE_HITS (cch w') = (CACHE_HITS (cch w) + 1)%Z))
  /\ (forall x, r = Raise x -> w' = w)
  /\ gov w' = gov w /\ clock w' = clock w /\ requests w' = requests w
  /\ sleeps w' = sleeps w.
Proof.
  unfold get_cached_response.
  destruct (files (cch w) !! cache_file cache_key) as [[[]| |]|];
    try (cbn; repeat split; intros; try congruence; try lia; fail).
  destruct (as_number _); [destruct (Qltb _ _)|];
    cbn; repeat split; intros; try congruence; try lia.
Qed.

(** X2. Entries under different keys do not interfere: storing a response
    under one key and looking one key up both leave the file of every other
    key as it is, so a lookup returns the same with or without a store under
    another key in between. *)
Theorem cache_keys_independent (k k' : string) (response : pyval) (w : world) :
  k <> k' ->
  files (cch (cache_response k response w)) !! cache_file k' = files (cch w) !! cache_file k'
  /\ files (cch (get_cached_response k w).2) !! cache_file k' = files (cch w) !! cache_file k'
  /\ (get_cached_response k' (cache_response k response w)).1
     = (get_cached_response k' w).1.
Proof.
  intros Hne.
  assert (Hfile : cache_file k <> cache_file k') by (intros H; now apply Hne, cache_file_inj).
  assert (H1 : files (cch (cache_response k response w)) !! cache_file k'
               = files (cch w) !! cache_file k').
  { cbn. now apply lookup_insert_ne. }
  split; [exact H1|]. split.
  - unfold get_cached_response.
    destruct (files (cch w) !! cache_file k) as [[[]| |]|]; try reflexivity.
    destruct (as_number _); [destruct (Qltb _ _)|]; try reflexivity.
    cbn. now apply lookup_delete_ne.
  - unfold get_cached_response. rewrite H1.
    destruct (files (cch w) !! cache_file k') as [[[]| |]|]; try reflexivity.
    destruct (as_number _); [|reflexivity].
    change (clock (cache_response k response w)) with (clock w).
    now destruct (Qltb _ _).
Qed.

Lemma cache_keys_independent_witness :
  (get_cached_response "b" (cache_response "a" search_response (fresh_world 0 []))).1
  = (get_cached_response "b" (fresh_world 0 [])).1.
Proof.
  apply (cache_keys_independent "a" "b" search_response (fresh_world 0 [])).
  intros [=].
Defined.

Lemma hex_digit_range (n : Z) :
  (0 <= n < 16)%Z -> In (MD5.hex_digit n) (list_ascii_of_string "0123456789abcdef").
Proof.
  intros H. rewrite <- (Z2Nat.id n) by lia.
  assert (Hk : (Z.to_nat n < 16)%nat) by lia.
  revert Hk. generalize (Z.to_nat n) as k. intros k Hk.
  do 16 (destruct k as [|k]; [vm_compute; tauto|]). lia.
Qed.

Lemma hex_chars (bs : list Z) (c : ascii) :
  In c (list_ascii_of_string (MD5.hex bs)) ->
  In c (list_ascii_of_string "0123456789abcdef").
Proof.
  induction bs as [|b bs IH]; [intros []|].
  cbn [MD5.hex list_ascii_of_string].
  intros [<-|[<-|H]]; [| |now apply IH];
    apply hex_digit_range, Z.mod_pos_bound; lia.
Qed.

(** X3. Whatever the endpoint and the parameters, the cache key consists
    of the characters 0-9 and a-f only: the name of a cache file never holds
    a path separator or a dot of its own. *)
Theorem get_cache_key_hex
    (float_repr : Q -> string) (endpoint : string) (params : list (string * pyval))
    (c : ascii) :
  In c (list_ascii_of_string (get_cache_key float_repr endpoint params)) ->
  In c (list_ascii_of_string "0123456789abcdef").
Proof. unfold get_cache_key, MD5.hexdigest. apply hex_chars. Qed.

Lemma get_cache_key_hex_witness :
  In "e"%char (list_ascii_of_string "0123456789abcdef").
Proof.
  apply (get_cache_key_hex no_floats "search" search_params "e"%char).
  vm_compute. tauto.
Defined.

Lemma assoc_get_missing (d : list (string * pyval)) (k : string) (dflt : pyval) :
  ~ In k (map fst d) -> assoc_get d k dflt = dflt.
Proof.
  induction d as [|[k' v] d IH]; [reflexivity|].
  intros Hk. simpl in *. destruct (String.eqb_spec k' k) as [->|_]; [tauto|].
  apply IH. tauto.
Qed.

(** X4. A cache entry without a [cached_at] field counts as written at
    time 0: once the clock is at 86400 or beyond, which any real clock is,
    the lookup treats it as expired, returns [None], counts a miss and
    removes the file. *)
Theorem entry_without_timestamp_expires
    (cache_key : string) (cached_data : list (string * pyval)) (w : world) :
  files (cch w) !! cache_file cache_key = Some (JsonText (PDict cached_data)) ->
  ~ In "cached_at" (map fst cached_data) ->
  (86400 <= clock w)%Q ->
  get_cached_response cache_key w
  = (Ok PNone, count_miss (unlink (cache_file cache_key) w)).
Proof.
  intros Hfile Hkey Hclock. unfold get_cached_response. rewrite Hfile.
  rewrite (assoc_get_missing _ _ _ Hkey). cbn [as_number].
  assert (Qltb (clock w - inject_Z 0) 86400 = false) as ->; [|reflexivity].
  apply Qltb_ge. change (inject_Z 0) with 0%Q. lra.
Qed.

Lemma entry_without_timestamp_expires_witness :
  get_cached_response "k"
    (world_with_file "k" (JsonText (PDict [("response", search_response)])))
  = (Ok PNone,
     count_miss (unlink (cache_file "k")
       (world_with_file "k" (JsonText (PDict [("response", search_response)]))))).
Proof.
  apply (entry_without_timestamp_expires "k" [("response", search_response)]).
  - reflexivity.
  - simpl. intros [H|[]]. discriminate H.
  - vm_compute. intros [=].
Defined.

(** ** Quota governor: pacing and errors *)

Lemma pass_time_paced (d : Q) (w : world) :
  (0 <= d)%Q -> minute_paced w -> minute_paced (pass_time d w).
Proof.
  intros Hd [H0 H]. split; [exact H0|].
  cbn [pass_time gov clock]. rewrite Qred_correct. lra.
Qed.

Lemma fresh_world_paced (now : Q) (draws : list Q) :
  (0 <= now)%Q -> minute_paced (fresh_world now draws).
Proof.
  intros H. unfold minute_paced.
  cbn [fresh_world gov initial_governor API_CALLS_MADE LAST_CALL_TIME clock].
  split; [lia|]. change (inject_Z 0) with 0%Q. lra.
Qed.

Lemma paced_below_minute_limit (calls : Z) (elapsed : Q) :
  (inject_Z calls * (1 # 10) <= elapsed)%Q -> (elapsed <= 60)%Q -> (calls <= 600)%Z.
Proof.
  intros H1 H2. rewrite Zle_Qle.
  change (inject_Z 600) with 600%Q. lra.
Qed.

(** What a call does in a paced state: it is refused and changes at most
    the daily counters and the breaker, or it is accepted after the window
    was either restarted or found to hold at most 600 calls. *)
Lemma throttle_paced_cases (w : world) :
  minute_paced w ->
  (exists w1 : world,
     throttle_api_call w = (false, w1)
     /\ API_CALLS_MADE (gov w1) = API_CALLS_MADE (gov w)
     /\ LAST_CALL_TIME (gov w1) = LAST_CALL_TIME (gov w)
     /\ clock w1 = clock w /\ sleeps w1 = sleeps w)
  \/ (exists w3 : world,
        throttle_api_call w = (true, count_call (time_sleep (1 # 10) w3))
        /\ clock w3 = clock w /\ sleeps w3 = sleeps w
        /\ (0 <= API_CALLS_MADE (gov w3) <= 600)%Z
        /\ (inject_Z (API_CALLS_MADE (gov w3)) * (1 # 10)
            <= clock w - LAST_CALL_TIME (gov w3))%Q).
Proof.
  intros [H0 Hp]. unfold throttle_api_call.
  destruct (QUOTA_EXCEEDED (gov w)); [left; exists w; auto|].
  set (w1 := if Qltb 86400 (clock w - DAILY_RESET_TIME (gov w))
             then reset_daily (clock w) w else w).
  assert (Hw1 : API_CALLS_MADE (gov w1) = API_CALLS_MADE (gov w)
                /\ LAST_CALL_TIME (gov w1) = LAST_CALL_TIME (gov w)
                /\ clock w1 = clock w /\ sleeps w1 = sleeps w).
  { subst w1. destruct (Qltb 86400 _); cbn; auto. }
  destruct Hw1 as (Ha1 & Hl1 & Hc1 & Hs1).
  destruct (MAX_CALLS_PER_DAY <=? DAILY_CALLS_MADE (gov w1))%Z.
  { left. exists (set_quota_exceeded w1). cbn. auto. }
  right. rewrite Hl1.
  destruct (Qltb 60 (clock w - LAST_CALL_TIME (gov w))) eqn:Hwin.
  - exists (reset_minute (clock w) w1). cbn.
    split; [reflexivity|]. repeat split; auto; try lia.
    change (inject_Z 0) with 0%Q. lra.
  - apply Qltb_ge in Hwin.
    pose proof (paced_below_minute_limit _ _ Hp Hwin) as Hcalls.
    assert ((MAX_CALLS_PER_MINUTE <=? API_CALLS_MADE (gov w1))%Z = false) as ->
      by (apply Z.leb_gt; rewrite Ha1; unfold MAX_CALLS_PER_MINUTE; lia).
    exists w1. split; [reflexivity|].
    rewrite Ha1, Hl1. repeat split; auto; lia.
Qed.

(** X5. The per-minute limit is never reached. Every accepted call sleeps
    a tenth of a second, so the calls counted in one 60-second window number
    at most 601, far below [MAX_CALLS_PER_MINUTE]. Hence a refused call of
    [throttle_api_call] does not sleep at all and an accepted one sleeps
    exactly once, the 0.1 s between calls, never for the minute window; and
    the pacing that makes this so is kept by every call and by time
    passing. *)
Theorem minute_limit_never_reached (w : world) :
  minute_paced w ->
  minute_paced (call_throttle w)
  /\ (((throttle_api_call w).1 = false /\ sleeps (call_throttle w) = sleeps w)
      \/ ((throttle_api_call w).1 = true
          /\ sleeps (call_throttle w) = (1 # 10)%Q :: sleeps w))
  /\ forall d : Q, (0 <= d)%Q -> minute_paced (pass_time d w).
Proof.
  intros Hw. split; [|split; [|intros d Hd; now apply pass_time_paced]];
    unfold call_throttle;
    destruct (throttle_paced_cases w Hw)
      as [(w1 & -> & Ha & Hl & Hc & Hs)|(w3 & -> & Hc & Hs & Ha & Hp)];
    cbn [fst snd].
  - destruct Hw as [H0 Hp]. unfold minute_paced. now rewrite Ha, Hl, Hc.
  - unfold minute_paced.
    cbn [count_call with_gov time_sleep gov clock API_CALLS_MADE LAST_CALL_TIME].
    split; [lia|]. rewrite Qred_correct, Hc, inject_Z_plus.
    change (inject_Z 1) with 1%Q. lra.
  - left. auto.
  - right. split; [reflexivity|]. cbn. now rewrite Hs.
Qed.

Lemma minute_limit_never_reached_witness :
  minute_paced (call_throttle (fresh_world 1700000000 []))
  /\ ((throttle_api_call (fresh_world 1700000000 [])).1 = false
      /\ sleeps (call_throttle (fresh_world 1700000000 [])) = sleeps (fresh_world 1700000000 [])
      \/ (throttle_api_call (fresh_world 1700000000 [])).1 = true
         /\ sleeps (call_throttle (fresh_world 1700000000 []))
            = (1 # 10)%Q :: sleeps (fresh_world 1700000000 []))
  /\ forall d : Q, (0 <= d)%Q -> minute_paced (pass_time d (fresh_world 1700000000 [])).
Proof.
  apply (minute_limit_never_reached (fresh_world 1700000000 [])).
  apply fresh_world_paced. unfold Qle; simpl; lia.
Defined.

(** X6. A quota error closes the governor for good: after
    [handle_api_error] has seen a 403 whose text names [quotaExceeded], it
    has returned [None] without sleeping, and every later call of
    [throttle_api_call] is refused and changes nothing, however much time
    passes in between. *)
Theorem quota_error_closes_governor
    (e : http_error) (operation : string) (w : world) (d : Q) (n : nat) :
  status e = 403%Z ->
  contains "quotaExceeded" (message e) = true ->
  let w' := (handle_api_error e operation w).2 in
  (handle_api_error e operation w).1 = PNone
  /\ sleeps w' = sleeps w
  /\ throttle_api_call (pass_time d w') = (false, pass_time d w')
  /\ Nat.iter n call_throttle (pass_time d w') = pass_time d w'.
Proof.
  intros Hs Hm. unfold handle_api_error. rewrite Hs, Hm. cbn [Z.eqb Pos.eqb andb fst snd].
  split; [reflexivity|]. split; [reflexivity|]. split.
  - now apply throttle_latched.
  - now apply calls_latched.
Qed.

Lemma quota_error_closes_governor_witness :
  throttle_api_call
    (pass_time 90000
       (handle_api_error {| status := 403; message := "quotaExceeded: daily limit" |}
          "resolve_channel_id" (fresh_world 1700000000 [])).2)
  = (false,
     pass_time 90000
       (handle_api_error {| status := 403; message := "quotaExceeded: daily limit" |}
          "resolve_channel_id" (fresh_world 1700000000 [])).2).
Proof.
  apply (quota_error_closes_governor
           {| status := 403; message := "quotaExceeded: daily limit" |}
           "resolve_channel_id" (fresh_world 1700000000 []) 90000 0);
    reflexivity.
Defined.

(** X7. What [handle_api_error] does with the three kinds of error. A 429
    sleeps once, between 30 and 60 seconds, and asks for a retry; any other
    error that is no quota error (a 403 without [quotaExceeded] in its text
    among them) returns [None] and changes nothing. None of them touches the
    cache or the counters of the governor. *)
Theorem handle_api_error_cases (e : http_error) (operation : string) (w : world) :
  (0 <= hd 0 (entropy w) <= 1)%Q ->
  let r := (handle_api_error e operation w).1 in
  let w' := (handle_api_error e operation w).2 in
  cch w' = cch w
  /\ API_CALLS_MADE (gov w') = API_CALLS_MADE (gov w)
  /\ DAILY_CALLS_MADE (gov w') = DAILY_CALLS_MADE (gov w)
  /\ requests w' = requests w
  /\ (status e = 429%Z ->
      r = PStr "retry" /\ gov w' = gov w
      /\ exists backoff : Q, (30 <= backoff <= 60)%Q /\ sleeps w' = backoff :: sleeps w)
  /\ (status e <> 429%Z ->
      (status e = 403%Z /\ contains "quotaExceeded" (message e) = true) \/ (r = PNone /\ w' = w)).
Proof.
  intros Hr. unfold handle_api_error.
  destruct ((status e =? 403)%Z && contains "quotaExceeded" (message e)) eqn:Hquota.
  - apply andb_true_iff in Hquota as [Hs Hm]. apply Z.eqb_eq in Hs.
    cbn [fst snd set_quota_exceeded with_gov cch gov requests API_CALLS_MADE
         DAILY_CALLS_MADE].
    repeat match goal with |- _ /\ _ => split end; try reflexivity.
    + intros H429. lia.
    + intros _. left. auto.
  - destruct (status e =? 429)%Z eqn:H429.
    + apply Z.eqb_eq in H429.
      cbn [fst snd random_uniform time_sleep cch gov requests sleeps].
      repeat match goal with |- _ /\ _ => split end; try reflexivity.
      * intros _. split; [reflexivity|]. split; [reflexivity|].
        eexists. split; [|reflexivity]. rewrite Qred_correct. split; nra.
      * intros Hne. contradiction.
    + apply Z.eqb_neq in H429. cbn [fst snd].
      repeat match goal with |- _ /\ _ => split end; try reflexivity.
      * intros Heq. contradiction.
      * intros _. right. auto.
Qed.

Lemma handle_api_error_cases_witness :
  exists backoff : Q,
    (30 <= backoff <= 60)%Q
    /\ sleeps (handle_api_error {| status := 429; message := "" |} "op"
                 (fresh_world 0 [(1 # 2)%Q])).2
       = [backoff].
Proof.
  assert (H : (0 <= hd 0 (entropy (fresh_world 0 [(1 # 2)%Q])) <= 1)%Q)
    by (split; unfold Qle; simpl; lia).
  exact (proj2 (proj2 (proj1 (proj2 (proj2 (proj2 (proj2
           (handle_api_error_cases {| status := 429; message := "" |} "op"
              (fresh_world 0 [(1 # 2)%Q]) H))))) eq_refl))).
Defined.

(** ** Gatherer: the calls through cache and governor *)

Lemma get_cached_response_frame (cache_key : string) (w : world) :
  let w' := (get_cached_response cache_key w).2 in
  gov w' = gov w /\ clock w' = clock w /\ sleeps w' = sleeps w
  /\ entropy w' = entropy w /\ requests w' = requests w.
Proof.
  unfold get_cached_response.
  destruct (files (cch w) !! cache_file cache_key) as [[[]| |]|]; try (cbn; auto; fail).
  destruct (as_number _); [destruct (Qltb _ _)|]; cbn; auto.
Qed.

Lemma throttle_frame (w : world) :
  let w' := (throttle_api_call w).2 in
  cch w' = cch w /\ requests w' = requests w /\ entropy w' = entropy w.
Proof.
  unfold throttle_api_call.
  repeat match goal with
         | |- context [if ?c then _ else _] => destruct c
         end; cbn; auto.
Qed.

Lemma handle_api_error_frame (e : http_error) (operation : string) (w : world) :
  let w' := (handle_api_error e operation w).2 in
  cch w' = cch w /\ requests w' = requests w.
Proof.
  unfold handle_api_error.
  repeat match goal with
         | |- context [if ?c then _ else _] => destruct c
         end; cbn; auto.
Qed.

(** [resolve_channel_id] is the common body at its endpoint. *)
Lemma resolve_channel_id_cached_call
    (float_repr : Q -> string) (youtube : nat -> api_reply)
    (depth : nat) (name : string) (w : world) :
  resolve_channel_id float_repr youtube depth name w
  = cached_api_call float_repr youtube depth "search" "resolve_channel_id"
      [("q", PStr name); ("type", PStr "channel"); ("part", PStr "snippet");
       ("maxResults", PInt 1)]
      first_channel_id PNone w.
Proof.
  revert w. induction depth as [|depth IH]; intros w; [reflexivity|].
  cbn [resolve_channel_id cached_api_call].
  destruct (get_cached_response _ w) as [[v|x] w1]; [|reflexivity].
  destruct (truthy v); [reflexivity|].
  destruct (throttle_api_call w1) as [[|] w2]; [|reflexivity].
  destruct (execute youtube w2) as [[res|e] w3]; [reflexivity|].
  destruct (handle_api_error e "resolve_channel_id" w3) as [r w4].
  rewrite IH. reflexivity.
Qed.

Section Sub_call_properties.

Variable float_repr : Q -> string.
Variable youtube : nat -> api_reply.

Local Abbreviation call := (cached_api_call float_repr youtube).

Lemma cached_call_hit
    (depth : nat) (endpoint operation : string) (params : list (string * pyval))
    (extract : pyval -> result pyval) (dflt : pyval) (w : world) (t : Q) (response : pyval) :
  files (cch w) !! cache_file (get_cache_key float_repr endpoint params)
    = Some (JsonText (PDict [("cached_at", PFloat t); ("response", response)])) ->
  (clock w - t < 86400)%Q ->
  truthy response = true ->
  call (S depth) endpoint operation params extract dflt w
  = (extract response, count_hit w).
Proof.
  intros Hentry Hfresh Htruthy. cbn [cached_api_call].
  rewrite (get_cached_response_entry _ w t response Hentry).
  apply Qltb_lt in Hfresh. rewrite Hfresh. now rewrite Htruthy.
Qed.

Lemma cached_call_breaker
    (depth : nat) (endpoint operation : string) (params : list (string * pyval))
    (extract : pyval -> result pyval) (dflt : pyval) (w : world) :
  QUOTA_EXCEEDED (gov w) = true ->
  requests (call depth endpoint operation params extract dflt w).2 = requests w
  /\ sleeps (call depth endpoint operation params extract dflt w).2 = sleeps w
  /\ (files (cch w) !! cache_file (get_cache_key float_repr endpoint params) = None ->
      call (S depth) endpoint operation params extract dflt w = (Ok dflt, count_miss w)).
Proof.
  intros Hq. split; [|split].
  - destruct depth as [|depth]; [reflexivity|]. cbn [cached_api_call].
    pose proof (get_cached_response_frame (get_cache_key float_repr endpoint params) w)
      as (Hg & _ & _ & _ & Hr).
    destruct (get_cached_response _ w) as [[v|x] w1]; cbn [snd] in *; [|exact Hr].
    destruct (truthy v); [exact Hr|].
    rewrite throttle_latched by (now rewrite Hg). exact Hr.
  - destruct depth as [|depth]; [reflexivity|]. cbn [cached_api_call].
    pose proof (get_cached_response_frame (get_cache_key float_repr endpoint params) w)
      as (Hg & _ & Hs & _ & _).
    destruct (get_cached_response _ w) as [[v|x] w1]; cbn [snd] in *; [|exact Hs].
    destruct (truthy v); [exact Hs|].
    rewrite throttle_latched by (now rewrite Hg). exact Hs.
  - intros Hnone. cbn [cached_api_call]. unfold get_cached_response. rewrite Hnone.
    cbn [truthy]. now rewrite throttle_latched.
Qed.

(** What a call does when the cache has nothing to offer and the governor
    lets it through: one request, and what comes of it. *)
Lemma cached_call_request
    (depth : nat) (endpoint operation : string) (params : list (string * pyval))
    (extract : pyval -> result pyval) (dflt : pyval) (w : world) :
  files (cch w) !! cache_file (get_cache_key float_repr endpoint params) = None ->
  QUOTA_EXCEEDED (gov w) = false ->
  (0 <= DAILY_CALLS_MADE (gov w) < MAX_CALLS_PER_DAY)%Z ->
  exists w2 : world,
    throttle_api_call (count_miss w) = (true, w2)
    /\ cch w2 = cch (count_miss w) /\ requests w2 = requests w
    /\ call (S depth) endpoint operation params extract dflt w
       = match youtube (requests w) with
         | Reply res =>
             (extract res,
              cache_response (get_cache_key float_repr endpoint params) res
                (execute youtube w2).2)
         | HttpError e =>
             match handle_api_error e operation (execute youtube w2).2 with
             | (PStr "retry", w4) => call depth endpoint operation params extract dflt w4
             | (_, w4) => (Ok dflt, w4)
             end
         end.
Proof.
  intros Hnone Hq Hd.
  destruct (throttle_accepts (count_miss w) Hq Hd) as (w2 & Ht & Hc & Hr & _).
  exists w2. split; [exact Ht|]. split; [exact Hc|]. split; [exact Hr|].
  cbn [cached_api_call]. unfold get_cached_response. rewrite Hnone. cbn [truthy].
  rewrite Ht.
  assert (Hy : youtube (requests w2) = youtube (requests w)) by (now rewrite Hr).
  unfold execute. cbn [fst snd]. rewrite Hy.
  destruct (youtube (requests w)); reflexivity.
Qed.

(** Each of the five calls is the common body at its own endpoint,
    parameters, extraction and default. *)
Lemma run_sub_call_shape (c : sub_call) :
  exists (endpoint operation : string) (params : list (string * pyval)),
    sub_call_key float_repr c = get_cache_key float_repr endpoint params
    /\ forall depth w,
         run_sub_call float_repr youtube c depth w
         = call depth endpoint operation params (sub_call_extract c) (sub_call_default c) w.
Proof.
  destruct c as [name|id|id|id limit|id]; do 3 eexists; (split; [reflexivity|]);
    intros depth w; [apply resolve_channel_id_cached_call|reflexivity..].
Qed.

(** X8. A fresh cached response that is not empty is all a call needs:
    each of the five gatherer calls returns what it takes from the cached
    response and leaves the world as it was apart from one counted hit. It
    sends no request, does not consult the governor and does not sleep. *)
Theorem sub_call_served_from_cache
    (c : sub_call) (depth : nat) (w : world) (t : Q) (response : pyval) :
  files (cch w) !! cache_file (sub_call_key float_repr c)
    = Some (JsonText (PDict [("cached_at", PFloat t); ("response", response)])) ->
  (clock w - t < 86400)%Q ->
  truthy response = true ->
  run_sub_call float_repr youtube c (S depth) w
  = (sub_call_extract c response, count_hit w).
Proof.
  destruct (run_sub_call_shape c) as (endpoint & operation & params & -> & ->).
  apply cached_call_hit.
Qed.

(** X9. With the breaker set, none of the five gatherer calls sends a
    request or sleeps, whatever the cache holds and however deep the call
    may recurse; and when the cache has no entry for it, the call returns its
    default ([None], an empty dictionary or an empty list) after counting the
    miss. *)
Theorem sub_call_breaker_set (c : sub_call) (depth : nat) (w : world) :
  QUOTA_EXCEEDED (gov w) = true ->
  requests (run_sub_call float_repr youtube c depth w).2 = requests w
  /\ sleeps (run_sub_call float_repr youtube c depth w).2 = sleeps w
  /\ (files (cch w) !! cache_file (sub_call_key float_repr c) = None ->
      run_sub_call float_repr youtube c (S depth) w
      = (Ok (sub_call_default c), count_miss w)).
Proof.
  destruct (run_sub_call_shape c) as (endpoint & operation & params & -> & Hrun).
  rewrite !Hrun. apply cached_call_breaker.
Qed.

(** X10. What one call fetched, the next call finds. When the cache has
    no entry, the governor is open and the remote API replies with a
    response that is not empty, the call sends exactly one request and
    returns what it takes from the reply; and the same call made again less
    than 86400 seconds later returns the same from the cache, without a
    request. *)
Theorem sub_call_fetch_then_cached
    (c : sub_call) (depth depth' : nat) (w : world) (res : pyval) (later : Q) :
  files (cch w) !! cache_file (sub_call_key float_repr c) = None ->
  QUOTA_EXCEEDED (gov w) = false ->
  (0 <= DAILY_CALLS_MADE (gov w) < MAX_CALLS_PER_DAY)%Z ->
  youtube (requests w) = Reply res ->
  truthy res = true ->
  (later < 86400)%Q ->
  let first := run_sub_call float_repr youtube c (S depth) w in
  let second := run_sub_call float_repr youtube c (S depth') (pass_time later first.2) in
  first.1 = sub_call_extract c res
  /\ requests first.2 = S (requests w)
  /\ second.1 = sub_call_extract c res
  /\ requests second.2 = S (requests w).
Proof.
  intros Hnone Hq Hd Hreply Htruthy Hlater.
  destruct (run_sub_call_shape c) as (endpoint & operation & params & Hkey & Hrun).
  rewrite Hkey in Hnone. cbv zeta. rewrite !Hrun.
  destruct (cached_call_request depth endpoint operation params
              (sub_call_extract c) (sub_call_default c) w Hnone Hq Hd)
    as (w2 & _ & _ & Hr2 & ->).
  rewrite Hreply. cbn [fst snd].
  split; [reflexivity|]. split; [cbn; now rewrite Hr2|].
  set (key := get_cache_key float_repr endpoint params).
  set (w1 := cache_response key res (execute youtube w2).2).
  rewrite (cached_call_hit depth' endpoint operation params _ _
             (pass_time later w1) (clock w2) res).
  - split; [reflexivity|]. cbn. now rewrite Hr2.
  - subst w1. cbn. apply lookup_insert_eq.
  - subst w1. cbn [pass_time clock cache_response write_file with_cch execute snd].
    rewrite Qred_correct. lra.
  - exact Htruthy.
Qed.

(** X11. An [HttpError] that is no rate limit ends the call at once: one
    request was sent, the default is returned, nothing was written to the
    cache, and no retry follows. *)
Theorem sub_call_error_not_retried
    (c : sub_call) (depth : nat) (w : world) (e : http_error) :
  files (cch w) !! cache_file (sub_call_key float_repr c) = None ->
  QUOTA_EXCEEDED (gov w) = false ->
  (0 <= DAILY_CALLS_MADE (gov w) < MAX_CALLS_PER_DAY)%Z ->
  youtube (requests w) = HttpError e ->
  status e <> 429%Z ->
  let run := run_sub_call float_repr youtube c (S depth) w in
  run.1 = Ok (sub_call_default c)
  /\ requests run.2 = S (requests w)
  /\ files (cch run.2) = files (cch w).
Proof.
  intros Hnone Hq Hd Hreply Hstatus.
  destruct (run_sub_call_shape c) as (endpoint & operation & params & Hkey & Hrun).
  rewrite Hkey in Hnone. cbv zeta. rewrite !Hrun.
  destruct (cached_call_request depth endpoint operation params
              (sub_call_extract c) (sub_call_default c) w Hnone Hq Hd)
    as (w2 & _ & Hc2 & Hr2 & ->).
  rewrite Hreply.
  pose proof (handle_api_error_frame e operation (execute youtube w2).2) as [Hc Hr].
  assert (Hret : (handle_api_error e operation (execute youtube w2).2).1 = PNone).
  { unfold handle_api_error.
    destruct (_ && _); [reflexivity|].
    destruct (status e =? 429)%Z eqn:H429; [apply Z.eqb_eq in H429; contradiction|].
    reflexivity. }
  destruct (handle_api_error e operation (execute youtube w2).2) as [r w4].
  cbn [fst snd] in *. subst r. cbn [fst snd].
  split; [reflexivity|]. split.
  - rewrite Hr. cbn. now rewrite Hr2.
  - rewrite Hc. cbn. now rewrite Hc2.
Qed.

(** X12. An empty response is never served from the cache. When the
    fresh cached response is an empty dictionary (or anything else that is
    false in Python), the lookup counts a hit and returns it, the caller
    takes it for a miss, and a request goes out all the same. *)
Theorem sub_call_empty_response_refetched
    (c : sub_call) (depth : nat) (w : world) (t : Q) (response : pyval) :
  files (cch w) !! cache_file (sub_call_key float_repr c)
    = Some (JsonText (PDict [("cached_at", PFloat t); ("response", response)])) ->
  (clock w - t < 86400)%Q ->
  truthy response = false ->
  QUOTA_EXCEEDED (gov w) = false ->
  (0 <= DAILY_CALLS_MADE (gov w) < MAX_CALLS_PER_DAY)%Z ->
  (forall n, exists res, youtube n = Reply res) ->
  let run := run_sub_call float_repr youtube c (S depth) w in
  requests run.2 = S (requests w)
  /\ CACHE_HITS (cch run.2) = (CACHE_HITS (cch w) + 1)%Z
  /\ CACHE_MISSES (cch run.2) = CACHE_MISSES (cch w).
Proof.
  intros Hentry Hfresh Hfalsy Hq Hd Hreply.
  destruct (run_sub_call_shape c) as (endpoint & operation & params & Hkey & Hrun).
  rewrite Hkey in Hentry. cbv zeta. rewrite !Hrun.
  cbn [cached_api_call].
  rewrite (get_cached_response_entry _ w t response Hentry).
  apply Qltb_lt in Hfresh. rewrite Hfresh, Hfalsy.
  destruct (throttle_accepts (count_hit w) Hq Hd) as (w2 & -> & Hc2 & Hr2 & _).
  unfold execute. destruct (Hreply (requests w2)) as [res ->].
  cbn. rewrite Hr2, Hc2. cbn. auto.
Qed.

End Sub_call_properties.

Lemma sub_call_served_from_cache_witness :
  run_sub_call no_floats failing_youtube (ResolveChannelId "Blippi") 1 cached_search_world
  = (Ok (PStr "UC5PYHgAzJ1wLEidB58SK6Xw"), count_hit cached_search_world).
Proof.
  apply (sub_call_served_from_cache no_floats failing_youtube (ResolveChannelId "Blippi") 0
           cached_search_world 1700000000 search_response).
  - vm_compute. reflexivity.
  - vm_compute. reflexivity.
  - reflexivity.
Defined.

Lemma sub_call_breaker_set_witness :
  requests (run_sub_call no_floats (rate_limited_youtube 0) (GetChannelStatus (PStr "UC1")) 5
              (set_quota_exceeded (fresh_world 1700000000 []))).2 = 0%nat.
Proof.
  apply (sub_call_breaker_set no_floats (rate_limited_youtube 0) (GetChannelStatus (PStr "UC1"))
           5 (set_quota_exceeded (fresh_world 1700000000 []))).
  reflexivity.
Defined.

Lemma sub_call_fetch_then_cached_witness :
  let first := run_sub_call no_floats (rate_limited_youtube 0) (ResolveChannelId "Blippi") 1
                 (fresh_world 1700000000 []) in
  let second := run_sub_call no_floats (rate_limited_youtube 0) (ResolveChannelId "Blippi") 1
                  (pass_time 3600 first.2) in
  first.1 = first_channel_id search_response
  /\ requests first.2 = 1%nat
  /\ second.1 = first_channel_id search_response
  /\ requests second.2 = 1%nat.
Proof.
  apply (sub_call_fetch_then_cached no_floats (rate_limited_youtube 0)
           (ResolveChannelId "Blippi") 0 0 (fresh_world 1700000000 []) search_response 3600).
  - reflexivity.
  - reflexivity.
  - change (0 <= 0 < 9000)%Z. lia.
  - reflexivity.
  - reflexivity.
  - vm_compute. reflexivity.
Defined.

Lemma sub_call_error_not_retried_witness :
  let run := run_sub_call no_floats failing_youtube (ListRecentVideos (PStr "UC1") 15) 3
               (fresh_world 1700000000 []) in
  run.1 = Ok (PList [])
  /\ requests run.2 = 1%nat
  /\ files (cch run.2) = files (cch (fresh_world 1700000000 [])).
Proof.
  apply (sub_call_error_not_retried no_floats failing_youtube (ListRecentVideos (PStr "UC1") 15)
           2 (fresh_world 1700000000 []) {| status := 500; message := "backendError" |}).
  - reflexivity.
  - reflexivity.
  - change (0 <= 0 < 9000)%Z. lia.
  - reflexivity.
  - intros [=].
Defined.

Lemma sub_call_empty_response_refetched_witness :
  let run := run_sub_call no_floats (rate_limited_youtube 0) (ResolveChannelId "Blippi") 1
               empty_cached_world in
  requests run.2 = 1%nat
  /\ CACHE_HITS (cch run.2) = 1%Z
  /\ CACHE_MISSES (cch run.2) = 0%Z.
Proof.
  apply (sub_call_empty_response_refetched no_floats (rate_limited_youtube 0)
           (ResolveChannelId "Blippi") 0 empty_cached_world 1700000000 (PDict [])).
  - vm_compute. reflexivity.
  - vm_compute. reflexivity.
  - reflexivity.
  - reflexivity.
  - change (0 <= 0 < 9000)%Z. lia.
  - intros n. exists search_response. reflexivity.
Defined.

(** ** The video details of [enrich_dataset] *)

Lemma append_detail_extends (details : list pyval) (entry : option pyval) :
  exists new : list pyval,
    append_detail details entry = (details ++ new)%list /\ (length new <= 1)%nat.
Proof.
  destruct entry as [d|]; simpl.
  - exists [d]. split; [reflexivity|simpl; lia].
  - exists []. split; [now rewrite app_nil_r|simpl; lia].
Qed.

(** X13. The loop that fetches the video details sends at most one
    request per video id, whatever the cache holds and whatever the remote
    API answers; and the list it ends with is the list it started with,
    unchanged and in place, followed by at most one new entry per video id:
    entries already collected are never dropped, replaced or reordered. *)
Theorem collect_video_details_bounds
    (float_repr : Q -> string) (youtube : nat -> api_reply)
    (recent_videos video_details : list pyval) (w : world) :
  let run := collect_video_details float_repr youtube recent_videos video_details w in
  (requests w <= requests run.2 <= requests w + length recent_videos)%nat
  /\ forall details, run.1 = Ok details ->
       exists new : list pyval,
         details = (video_details ++ new)%list
         /\ (length new <= length recent_videos)%nat.
Proof.
  cbv zeta. revert video_details w.
  induction recent_videos as [|vid_id rest IH]; intros video_details w.
  - cbn. split; [lia|]. intros details [= <-]. exists []. now rewrite app_nil_r.
  - cbn [collect_video_details length].
    assert (Hstop : exists new : list pyval,
               video_details = (video_details ++ new)%list
               /\ (length new <= S (length rest))%nat).
    { exists []. rewrite app_nil_r. split; [reflexivity|simpl; lia]. }
    assert (Hstep : forall (entry : option pyval) (w' : world) details,
               (exists new : list pyval,
                  details = (append_detail video_details entry ++ new)%list
                  /\ (length new <= length rest)%nat) ->
               exists new : list pyval,
                 details = (video_details ++ new)%list
                 /\ (length new <= S (length rest))%nat).
    { intros entry _ details (new & -> & Hlen).
      destruct (append_detail_extends video_details entry) as (new0 & -> & Hlen0).
      exists (new0 ++ new)%list. rewrite app_assoc. split; [reflexivity|].
      rewrite length_app. lia. }
    pose proof (get_cached_response_frame
                  (get_cache_key float_repr "videos_snippet"
                     [("id", vid_id); ("part", PStr "snippet")]) w) as (_ & _ & _ & _ & Hr1).
    destruct (get_cached_response _ w) as [[cached|x] w1]; cbn [snd] in Hr1;
      [|cbn; split; [lia|intros ? [=]]].
    destruct (truthy cached).
    + destruct (video_detail_of cached) as [entry|x];
        [|cbn; split; [lia|intros ? [=]]].
      specialize (IH (append_detail video_details entry) w1).
      destruct IH as [IHr IHd]. split; [lia|].
      intros details Hd. apply (Hstep entry w1), IHd, Hd.
    + pose proof (throttle_frame w1) as (_ & Hr2 & _).
      destruct (throttle_api_call w1) as [[|] w2]; cbn [snd] in Hr2;
        [|cbn; split; [lia|intros details [= <-]; exact Hstop]].
      unfold execute. destruct (youtube (requests w2)) as [vid_res|e].
      * destruct (video_detail_of vid_res) as [entry|x];
          [|cbn; split; [lia|intros ? [=]]].
        match goal with
        | |- context [collect_video_details _ _ rest ?acc ?w4] =>
            specialize (IH acc w4); cbn [cache_response write_file with_cch requests] in IH
        end.
        destruct IH as [IHr IHd]. split; [lia|].
        intros details Hd. apply (Hstep entry w2), IHd, Hd.
      * match goal with
        | |- context [handle_api_error e ?op ?w3] =>
            pose proof (handle_api_error_frame e op w3) as [_ Hr4]
        end.
        cbn [fst snd] in *. rewrite Hr4. cbn [requests].
        split; [lia|]. intros details [= <-]. exact Hstop.
Qed.

(** X14. In that loop an [HttpError] of any kind, a rate limit included,
    ends the loop: the one request was sent, the videos after it are not
    asked for, and what was collected before is returned. Unlike the five
    gatherer calls, the loop never retries. *)
Theorem collect_video_details_stops_at_error
    (float_repr : Q -> string) (youtube : nat -> api_reply)
    (vid_id : pyval) (rest video_details : list pyval) (w : world) (e : http_error) :
  files (cch w)
    !! cache_file (get_cache_key float_repr "videos_snippet"
                     [("id", vid_id); ("part", PStr "snippet")]) = None ->
  QUOTA_EXCEEDED (gov w) = false ->
  (0 <= DAILY_CALLS_MADE (gov w) < MAX_CALLS_PER_DAY)%Z ->
  youtube (requests w) = HttpError e ->
  let run := collect_video_details float_repr youtube (vid_id :: rest) video_details w in
  run.1 = Ok video_details
  /\ requests run.2 = S (requests w)
  /\ files (cch run.2) = files (cch w).
Proof.
  intros Hnone Hq Hd Hreply. cbv zeta. cbn [collect_video_details].
  unfold get_cached_response. rewrite Hnone. cbn [truthy].
  destruct (throttle_accepts (count_miss w) Hq Hd) as (w2 & -> & Hc2 & Hr2 & _).
  unfold execute. rewrite Hr2. cbn [count_miss with_cch requests]. rewrite Hreply.
  match goal with
  | |- context [handle_api_error e ?op ?w3] =>
      pose proof (handle_api_error_frame e op w3) as [Hc4 Hr4]
  end.
  cbn [fst snd] in *. rewrite Hr4, Hc4. cbn. rewrite Hc2. auto.
Qed.

Lemma collect_video_details_stops_at_error_witness :
  let run := collect_video_details no_floats (rate_limited_youtube 5)
               [PStr "v1"; PStr "v2"; PStr "v3"] [] (fresh_world 1700000000 []) in
  run.1 = Ok []
  /\ requests run.2 = 1%nat
  /\ files (cch run.2) = files (cch (fresh_world 1700000000 [])).
Proof.
  apply (collect_video_details_stops_at_error no_floats (rate_limited_youtube 5)
           (PStr "v1") [PStr "v2"; PStr "v3"] [] (fresh_world 1700000000 [])
           {| status := 429; message := "rateLimitExceeded" |}).
  - reflexivity.
  - reflexivity.
  - change (0 <= 0 < 9000)%Z. lia.
  - reflexivity.
Defined.

(** ** Evidence from the content ratings *)

Lemma py_int_digits_nonneg (s : string) (n : Z) :
  py_int_digits s = Some n -> (0 <= n)%Z.
Proof.
  unfold py_int_digits.
  assert (H : forall (l : list ascii) (acc : option Z),
             (forall a, acc = Some a -> (0 <= a)%Z) ->
             forall n, fold_left (fun acc c =>
                         match acc with
                         | Some n =>
                             if is_ascii_digit c
                             then Some (10 * n + (Z.of_N (N_of_ascii c) - 48))%Z
                             else None
                         | None => None
                         end) l acc = Some n -> (0 <= n)%Z).
  { induction l as [|c l IH]; intros acc Hacc m; simpl; [apply Hacc|].
    apply IH. intros a. destruct acc as [k|]; [|discriminate].
    destruct (is_ascii_digit c) eqn:Hc; [|discriminate].
    intros [= <-]. specialize (Hacc k eq_refl).
    unfold is_ascii_digit in Hc. apply andb_true_iff in Hc as [Hc _].
    apply N.leb_le in Hc. lia. }
  apply H. intros a [= <-]. lia.
Qed.

Lemma scan_rating_values_nonneg (values : list pyval) (acc ages : list Z) :
  Forall (fun a => 0 <= a)%Z acc ->
  scan_rating_values values acc = Some ages ->
  Forall (fun a => 0 <= a)%Z ages.
Proof.
  revert acc. induction values as [|v values IH]; intros acc Hacc; simpl.
  - now intros [= <-].
  - destruct v; try (now apply IH).
    destruct (py_isdigit s); [|now apply IH].
    destruct (py_int_digits s) as [n|] eqn:Hn; [|discriminate].
    apply IH. apply Forall_app. split; [exact Hacc|].
    constructor; [|constructor]. now apply (py_int_digits_nonneg s).
Qed.

Lemma collect_board_ages_nonneg (ratings : list pyval) (acc ages : list Z) :
  Forall (fun a => 0 <= a)%Z acc ->
  collect_board_ages ratings acc = Ages ages ->
  Forall (fun a => 0 <= a)%Z ages.
Proof.
  revert acc. induction ratings as [|r ratings IH]; intros acc Hacc; simpl.
  - now intros [= <-].
  - destruct r; try discriminate.
    destruct (scan_rating_values (map snd d) acc) as [ages'|] eqn:Hs; [|discriminate].
    apply IH. now apply (scan_rating_values_nonneg (map snd d) acc).
Qed.

Lemma fold_max_bounds (l : list Z) (a : Z) :
  let m := fold_left Z.max l a in
  In m (a :: l) /\ forall x, In x (a :: l) -> (x <= m)%Z.
Proof.
  revert a. induction l as [|b l IH]; intros a; cbn zeta; simpl fold_left.
  - split; [now left|]. intros x [<-|[]]. lia.
  - destruct (IH (Z.max a b)) as [Hin Hmax]. split.
    + destruct Hin as [Hm|Hm]; [|right; now right].
      rewrite <- Hm. destruct (Z.max_spec a b) as [[_ ->]|[_ ->]]; [right; now left|now left].
    + intros x [Hx|[Hx|Hx]].
      * specialize (Hmax (Z.max a b) (or_introl eq_refl)). lia.
      * specialize (Hmax (Z.max a b) (or_introl eq_refl)). lia.
      * apply Hmax. now right.
Qed.

Lemma scan_rating_values_spec (values : list pyval) (acc ages : list Z) :
  scan_rating_values values acc = Some ages ->
  (forall a, In a ages <->
             In a acc \/ exists s, In (PStr s) values /\ py_isdigit s = true
                                   /\ py_int_digits s = Some a)
  /\ (forall s, In (PStr s) values -> py_isdigit s = true ->
                exists a, py_int_digits s = Some a).
Proof.
  revert acc. induction values as [|v values IH]; intros acc; simpl.
  - intros [= <-]. split.
    + intros a. split; [now left|]. intros [H|(s & [] & _)]. exact H.
    + intros s [].
  - assert (Hskip : scan_rating_values values acc = Some ages ->
                    (forall s, v = PStr s -> py_isdigit s = false) ->
                    (forall a, In a ages <->
                       In a acc \/ exists s, (v = PStr s \/ In (PStr s) values)
                                             /\ py_isdigit s = true
                                             /\ py_int_digits s = Some a)
                    /\ (forall s, v = PStr s \/ In (PStr s) values ->
                                  py_isdigit s = true ->
                                  exists a, py_int_digits s = Some a)).
    { intros Hs Hv. destruct (IH acc Hs) as [Hin Hint]. split.
      - intros a. rewrite Hin. split.
        + intros [H|(s & H1 & H2 & H3)]; [now left|right; exists s; auto].
        + intros [H|(s & [H1|H1] & H2 & H3)]; [now left| |right; exists s; auto].
          rewrite (Hv s H1) in H2. discriminate.
      - intros s [H1|H1] H2; [|now apply Hint].
        rewrite (Hv s H1) in H2. discriminate. }
    destruct v as [|b|z|q|s0|l|d]; try (intros Hs; apply Hskip; [exact Hs|intros ? [=]]).
    destruct (py_isdigit s0) eqn:Hd0;
      [|intros Hs; apply Hskip; [exact Hs|intros ? [= <-]; exact Hd0]].
    destruct (py_int_digits s0) as [n|] eqn:Hn; [|discriminate].
    intros Hs. destruct (IH _ Hs) as [Hin Hint]. split.
    + intros a. rewrite Hin, in_app_iff. simpl. split.
      * intros [[H|[<-|[]]]|(s & H1 & H2 & H3)]; [now left| |right; exists s; auto].
        right. exists s0. auto.
      * intros [H|(s & [[= <-]|H1] & H2 & H3)]; [left; now left| |right; exists s; auto].
        left. right. left. congruence.
    + intros s [[= <-]|H1] H2; [eauto|now apply Hint].
Qed.

Lemma collect_board_ages_spec (ratings : list pyval) (acc ages : list Z) :
  collect_board_ages ratings acc = Ages ages ->
  (forall a, In a ages <->
             In a acc \/ exists s, digit_value ratings s /\ py_int_digits s = Some a)
  /\ (forall s, digit_value ratings s -> exists a, py_int_digits s = Some a).
Proof.
  unfold digit_value.
  revert acc. induction ratings as [|r ratings IH]; intros acc; simpl.
  - intros [= <-]. split.
    + intros a. split; [now left|]. intros [H|(s & (d & [] & _) & _)]. exact H.
    + intros s (d & [] & _).
  - destruct r as [| | | | | |d0]; try discriminate.
    destruct (scan_rating_values (map snd d0) acc) as [ages0|] eqn:Hs; [|discriminate].
    intros Hc. destruct (scan_rating_values_spec _ _ _ Hs) as [Hin0 Hint0].
    destruct (IH _ Hc) as [Hin Hint]. split.
    + intros a. rewrite Hin, Hin0. split.
      * intros [[H|(s & H1 & H2 & H3)]|(s & (d & H1 & H2 & H3) & H4)].
        -- now left.
        -- right. exists s. split; [exists d0; auto|exact H3].
        -- right. exists s. split; [exists d; auto|exact H4].
      * intros [H|(s & (d & [[= <-]|H1] & H2 & H3) & H4)].
        -- left. now left.
        -- left. right. exists s. auto.
        -- right. exists s. split; [exists d; auto|exact H4].
    + intros s (d & [[= <-]|H1] & H2 & H3); [now apply Hint0|].
      apply Hint. exists d. auto.
Qed.

(** X15. What [video_board_max_age] is. When the rating loop ends without
    an exception, the value stored is [None] exactly when no value of any
    rating object is a string of digits; otherwise it is the number that one
    of these strings spells, and the number of every such string, none of
    them negative, is at most the value stored. *)
Theorem board_max_is_largest_age (ratings : list pyval) (ages : list Z) :
  collect_board_ages ratings [] = Ages ages ->
  (board_max ages = PNone <-> forall s, ~ digit_value ratings s)
  /\ (forall m, board_max ages = PInt m ->
                exists s, digit_value ratings s /\ py_int_digits s = Some m)
  /\ (forall s, digit_value ratings s ->
                exists a m, py_int_digits s = Some a
                            /\ board_max ages = PInt m /\ (0 <= a <= m)%Z).
Proof.
  intros Hc.
  pose proof (collect_board_ages_nonneg ratings [] ages (List.Forall_nil _) Hc) as Hpos.
  destruct (collect_board_ages_spec ratings [] ages Hc) as [Hin Hint].
  assert (Hfound : forall a, In a ages <->
                     exists s, digit_value ratings s /\ py_int_digits s = Some a).
  { intros a. rewrite Hin. split; [intros [[]|H]; exact H|now right]. }
  split; [|split].
  - split.
    + intros Hnone s Hs. destruct (Hint s Hs) as [a Ha].
      assert (Hina : In a ages) by (apply Hfound; eauto).
      destruct ages; [destruct Hina|discriminate].
    + intros Hno. destruct ages as [|a0 rest]; [reflexivity|].
      destruct (proj1 (Hfound a0) (or_introl eq_refl)) as (s & Hs & _).
      destruct (Hno s Hs).
  - intros m Hm. apply Hfound. destruct ages as [|a0 rest]; [discriminate|].
    injection Hm as <-. apply (fold_max_bounds rest a0).
  - intros s Hs. destruct (Hint s Hs) as [a Ha].
    assert (Hina : In a ages) by (apply Hfound; eauto).
    destruct ages as [|a0 rest]; [destruct Hina|].
    exists a, (fold_left Z.max rest a0). split; [exact Ha|]. split; [reflexivity|].
    split; [|now apply (fold_max_bounds rest a0)].
    rewrite Forall_forall in Hpos. apply Hpos. now apply list_elem_of_In.
Qed.

Lemma board_max_is_largest_age_witness :
  let ratings :=
    [PDict [("ytRating", PStr "ytAgeRestricted"); ("fskRating", PStr "16")];
     PDict [("mpaaRating", PStr "mpaaPg13"); ("kijkwijzerRating", PStr "7")];
     PDict [("cncRating", PStr "18"); ("count", PInt 21)]] in
  (board_max [16; 7; 18]%Z = PNone <-> forall s, ~ digit_value ratings s)
  /\ (forall m, board_max [16; 7; 18]%Z = PInt m ->
                exists s, digit_value ratings s /\ py_int_digits s = Some m)
  /\ (forall s, digit_value ratings s ->
                exists a m, py_int_digits s = Some a
                            /\ board_max [16; 7; 18]%Z = PInt m /\ (0 <= a <= m)%Z).
Proof.
  apply (board_max_is_largest_age
           [PDict [("ytRating", PStr "ytAgeRestricted"); ("fskRating", PStr "16")];
            PDict [("mpaaRating", PStr "mpaaPg13"); ("kijkwijzerRating", PStr "7")];
            PDict [("cncRating", PStr "18"); ("count", PInt 21)]]).
  vm_compute. reflexivity.
Defined.

(** The largest age is found wherever it stands among the values. *)
Example board_max_two_values :
  collect_board_ages [PDict [("a", PStr "7"); ("b", PStr "18")]] [] = Ages [7; 18]%Z
  /\ board_max [7; 18]%Z = PInt 18.
Proof. vm_compute. split; reflexivity. Qed.

(** A rating value made of a superscript digit passes [isdigit], and
    [int] raises [ValueError] on it. *)
Example superscript_rating_raises :
  collect_board_ages [PDict [("rating", PStr (String (ascii_of_N 178) ""))]] []
  = IntValueError.
Proof. vm_compute. reflexivity. Qed.

(** ** kidSAFE listing *)

Lemma prefix_refl (s : string) : String.prefix s s = true.
Proof.
  induction s as [|c s IH]; [reflexivity|]. simpl.
  destruct (ascii_dec c c); [exact IH|contradiction].
Qed.

Lemma contains_middle (before x after : string) :
  contains x (before ++ x ++ after) = true.
Proof.
  apply contains_app_r, contains_app, contains_prefix, prefix_refl.
Qed.

Lemma prefix_inv (kw text : string) :
  String.prefix kw text = true -> exists after : string, text = kw ++ after.
Proof.
  revert text. induction kw as [|k kw IH]; intros text H.
  - exists text. reflexivity.
  - destruct text as [|t text]; [discriminate|]. simpl in H.
    destruct (ascii_dec k t) as [->|]; [|discriminate].
    destruct (IH text H) as [after ->]. exists after. reflexivity.
Qed.

Lemma contains_inv (kw text : string) :
  contains kw text = true -> exists before after : string, text = before ++ kw ++ after.
Proof.
  induction text as [|t text IH]; intros H; rewrite contains_unfold in H.
  - rewrite orb_false_r in H. destruct (prefix_inv kw "" H) as [after Ha].
    exists "", after. exact Ha.
  - apply orb_true_iff in H as [H|H].
    + destruct (prefix_inv _ _ H) as [after Ha]. exists "", after. exact Ha.
    + destruct (IH H) as (before & after & ->).
      exists (String t before), after. reflexivity.
Qed.

(** [kw in text] holds exactly when [text] is some text, then [kw], then
    some text. *)
Lemma contains_iff (kw text : string) :
  contains kw text = true <-> exists before after : string, text = before ++ kw ++ after.
Proof.
  split; [apply contains_inv|]. intros (before & after & ->). apply contains_middle.
Qed.

(** X16. The kidSAFE check is a substring test without regard to case,
    and nothing else: on a page that was fetched, a name is listed exactly
    when the lower-cased page text is some text, then the lower-cased name,
    then some text; so the name may stand anywhere, also inside a longer
    word, and a name that does not occur is not listed. When the request for
    the page failed, no name is listed. *)
Theorem kidsafe_is_substring_match (page name : string) :
  (is_kidsafe_listed (Some page) name = true
   <-> exists before after : string, lower page = before ++ lower name ++ after)
  /\ (is_kidsafe_listed (Some page) name = false
      <-> forall before after : string, lower page <> before ++ lower name ++ after)
  /\ is_kidsafe_listed None name = false.
Proof.
  unfold is_kidsafe_listed. split; [apply contains_iff|]. split; [|reflexivity].
  split.
  - intros Hno before after Heq.
    assert (contains (lower name) (lower page) = true) by (apply contains_iff; eauto).
    congruence.
  - intros Hno. destruct (contains (lower name) (lower page)) eqn:Hc; [|reflexivity].
    apply contains_iff in Hc as (before & after & Heq). destruct (Hno before after Heq).
Qed.

(** A name in another letter case and inside a longer word is listed, the
    empty name is listed on every page, and a name that does not occur is
    not listed. *)
Example kidsafe_listing_examples :
  is_kidsafe_listed (Some "Certified: ABCmouse.com, PBS KIDS Video") "abc" = true
  /\ is_kidsafe_listed (Some "Certified: ABCmouse.com, PBS KIDS Video") "pbs kids" = true
  /\ is_kidsafe_listed (Some "Certified: ABCmouse.com, PBS KIDS Video") "" = true
  /\ is_kidsafe_listed (Some "Certified: ABCmouse.com, PBS KIDS Video") "Blippi" = false.
Proof. vm_compute. repeat split; reflexivity. Qed.

(** ** Maturity scorer: what the report depends on *)

Lemma lower_take (n : nat) (s : string) : lower (take n s) = take n (lower s).
Proof.
  revert s. induction n as [|n IH]; intros [|c s]; try reflexivity.
  simpl. now rewrite IH.
Qed.

Lemma scored_alike_video_text (v v' : video) :
  scored_alike v v' -> video_text v = video_text v'.
Proof.
  intros (Ht & Hd & Htags). unfold video_text.
  rewrite <- !lower_take. now rewrite Ht, Hd, Htags.
Qed.

Lemma scan_video_by_text (c : counts) (v v' : video) :
  video_text v = video_text v' -> scan_video c v = scan_video c v'.
Proof. intros H. unfold scan_video. now rewrite H. Qed.

Lemma scan_videos_alike (videos videos' : list video) (c : counts) :
  Forall2 scored_alike videos videos' ->
  fold_left scan_video videos c = fold_left scan_video videos' c.
Proof.
  intros H. revert c. induction H as [|v v' videos videos' Hv _ IH]; intros c; simpl.
  - reflexivity.
  - rewrite (scan_video_by_text c v v' (scored_alike_video_text v v' Hv)). apply IH.
Qed.

(** X17. The report of [analyze_content_maturity] does not see letter
    case, and it does not see a video description beyond its first 500
    characters: two inputs that agree on the lower-cased channel description
    and, video by video, on the lower-cased title, tags and first 500
    characters of the description get the same report. *)
Theorem report_blind_to_case_and_tail
    (videos videos' : list video) (desc desc' : string) :
  Forall2 scored_alike videos videos' ->
  lower desc = lower desc' ->
  analyze_content_maturity videos desc = analyze_content_maturity videos' desc'.
Proof.
  intros Hv Hd.
  assert (Hc : count_occurrences videos desc = count_occurrences videos' desc').
  { unfold count_occurrences, scan_description. rewrite Hd. now apply scan_videos_alike. }
  unfold analyze_content_maturity. rewrite Hc.
  apply Forall2_length in Hv.
  destruct videos, videos'; try discriminate; [reflexivity|].
  now rewrite Hv.
Qed.

Lemma report_blind_to_case_and_tail_witness :
  analyze_content_maturity
    [{| title := Some "DOOM Speedrun"; description := Some "Rated M"; tags := None |}]
    "Gaming TUTORIALS"
  = analyze_content_maturity
      [{| title := Some "doom speedrun"; description := Some "rated m"; tags := Some [] |}]
      "gaming tutorials".
Proof.
  apply report_blind_to_case_and_tail.
  - constructor; [|constructor]. repeat split.
  - reflexivity.
Defined.

(** ** From the report to the decision *)

Lemma analyze_flag_explicit (videos : list video) (desc : string) :
  let c := count_occurrences videos desc in
  let adult := (1 <=? explicit_count c)%Z || Qle_bool 2 (adult_content_score c) in
  analyze_content_maturity videos desc !! "is_explicit_adult_content" = Some (PBool adult)
  /\ analyze_content_maturity videos desc !! "adult_keywords_detected" = Some (PBool adult).
Proof. split; lookup_report; reflexivity. Qed.

Lemma analyze_flag_educational (videos : list video) (desc : string) :
  analyze_content_maturity videos desc !! "is_educational_content"
  = Some (PBool (reaches (educational_count (count_occurrences videos desc)) 3
                   (match videos with [] => 1 | _ => Z.of_nat (length videos) end)
                   (4 # 10))).
Proof. lookup_report; reflexivity. Qed.

Lemma analyze_no_source_keys (videos : list video) (desc : string) (k : string) :
  In k ["made_for_kids"; "common_sense_age"; "kidsafe"; "yt_agerestricted";
        "video_board_max_age"] ->
  analyze_content_maturity videos desc !! k = None.
Proof.
  intros Hk. unfold analyze_content_maturity. cbn [list_to_map foldr uncurry fst snd].
  repeat (destruct Hk as [<-|Hk];
          [repeat (rewrite lookup_insert_ne by (intros [=])); apply lookup_empty|]).
  destruct Hk.
Qed.

Lemma built_lookup_scored
    (official : option (pyval * bool * list Z)) (csm : option Z) (kidsafe : bool)
    (m : gmap string pyval) (k : string) (v : pyval) :
  m !! k = Some v ->
  build_evidence official csm kidsafe (Some m) !! k = Some v.
Proof. intros H. unfold build_evidence. now apply lookup_union_Some_l. Qed.

(** X18. Two rules of the adjudicator can never decide a channel that the
    scorer has reported on. Whatever the other sources said, the decision for
    a bag that holds the report of [analyze_content_maturity] never carries
    the label [AdultContentScore] or [AdultKeywords]: a score of 3 or more,
    or any explicit keyword, has already set [is_explicit_adult_content],
    and that rule comes first. *)
Theorem score_and_keyword_rules_dead
    (official : option (pyval * bool * list Z)) (csm : option Z) (kidsafe : bool)
    (videos : list video) (desc name : string) (d : decision) :
  adjudicate_evidence
    (build_evidence official csm kidsafe (Some (analyze_content_maturity videos desc)))
    name = Ok d ->
  d.1.2 <> "AdultContentScore" /\ d.1.2 <> "AdultKeywords".
Proof.
  set (e := build_evidence official csm kidsafe
              (Some (analyze_content_maturity videos desc))).
  destruct (analyze_flag_explicit videos desc) as [Hexp Hdet]. cbv zeta in Hexp, Hdet.
  set (adult := (1 <=? explicit_count (count_occurrences videos desc))%Z
                || Qle_bool 2 (adult_content_score (count_occurrences videos desc)))
    in Hexp, Hdet.
  assert (He : dict_get e "is_explicit_adult_content" = PBool adult).
  { unfold dict_get, e. now rewrite (built_lookup_scored _ _ _ _ _ _ Hexp). }
  assert (Hk : dict_get e "adult_keywords_detected" = PBool adult).
  { unfold dict_get, e. now rewrite (built_lookup_scored _ _ _ _ _ _ Hdet). }
  assert (Hs : dict_get_or e "total_adult_content_score" (PInt 0)
               = PFloat (adult_content_score (count_occurrences videos desc))).
  { unfold dict_get_or, e.
    now rewrite (built_lookup_scored _ _ _ _ _ _ (analyze_reports_score videos desc)). }
  unfold adjudicate_evidence, flag_and_ge. rewrite He, Hk, Hs.
  cbn [truthy py_ge as_number]. unfold_result.
  destruct adult eqn:Hadult.
  - repeat match goal with
           | |- context [if truthy ?v then _ else _] => destruct (truthy v)
           end; intros [= <-]; split; discriminate.
  - subst adult. apply orb_false_iff in Hadult as [_ Hscore].
    assert (Qle_bool (inject_Z 3) (adult_content_score (count_occurrences videos desc))
            = false) as ->.
    { apply not_true_iff_false. intros H3. apply Qle_bool_iff in H3.
      apply not_true_iff_false in Hscore. apply Hscore, Qle_bool_iff.
      change (inject_Z 3) with 3%Q in H3. lra. }
    repeat match goal with
           | |- context [if truthy ?v then _ else _] => destruct (truthy v)
           | |- context [match ?c with Ok _ => _ | Raise _ => _ end] =>
               destruct c as [[|]|]
           end; intros [= <-]; split; discriminate.
Qed.

Lemma score_and_keyword_rules_dead_witness :
  let d := (PInt 18, "ExplicitContent", "Explicit adult content detected") in
  d.1.2 <> "AdultContentScore" /\ d.1.2 <> "AdultKeywords".
Proof.
  apply (score_and_keyword_rules_dead None None false
           [{| title := Some "nsfw"; description := None; tags := None |}] "" "c").
  vm_compute. reflexivity.
Defined.

Lemma scored_only_bag_sources (videos : list video) (desc : string) :
  let e := scored_only_bag videos desc in
  truthy (dict_get e "made_for_kids") = false
  /\ truthy (dict_get e "common_sense_age") = false
  /\ truthy (dict_get e "kidsafe") = false
  /\ truthy (dict_get e "yt_agerestricted") = false
  /\ truthy (dict_get e "video_board_max_age") = false.
Proof.
  cbv zeta. unfold scored_only_bag, build_evidence, dict_get.
  repeat split;
    (rewrite lookup_union_r by (apply analyze_no_source_keys; simpl; tauto));
    repeat (rewrite lookup_insert_ne by (intros [=]));
    rewrite lookup_insert_eq; reflexivity.
Qed.

Lemma video_hits_nonneg (kws : list string) (videos : list video) :
  (0 <= video_hits kws videos)%Z.
Proof. induction videos; simpl; unfold hits in *; lia. Qed.

(** X19. Educational vocabulary outranks explicit content. For a channel
    with at most ten sampled videos and no signal from the official and
    third-party sources, two educational keywords in the channel description
    are enough for the decision (13, EducationalContent), however many
    explicit, drama or other keywords the description and the videos hold. *)
Theorem educational_outranks_content
    (videos : list video) (desc name : string) :
  (2 <= hits educational_keywords (lower desc))%Z ->
  (length videos <= 10)%nat ->
  adjudicate_evidence (scored_only_bag videos desc) name
  = Ok (PInt 13, "EducationalContent", "Educational/instructional content detected").
Proof.
  intros Hhits Hlen.
  destruct (scored_only_bag_sources videos desc) as (H1 & H2 & H3 & H4 & H5).
  assert (Hedu : dict_get (scored_only_bag videos desc) "is_educational_content"
                 = PBool true).
  { unfold dict_get, scored_only_bag.
    rewrite (built_lookup_scored _ _ _ _ _ _ (analyze_flag_educational videos desc)).
    cbn [default from_option id]. f_equal. unfold reaches. apply Qle_bool_iff.
    pose proof (count_occurrences_closed_form Educational videos desc) as Hc.
    cbn [count_of description_weight keywords] in Hc. rewrite Hc.
    pose proof (video_hits_nonneg educational_keywords videos) as Hv.
    assert (Hcount : (4 <= 2 * hits educational_keywords (lower desc)
                           + video_hits educational_keywords videos)%Z) by lia.
    rewrite Zle_Qle in Hcount. change (inject_Z 4) with 4%Q in Hcount.
    assert (Hvc : (match videos with [] => 1 | _ => Z.of_nat (length videos) end <= 10)%Z)
      by (destruct videos; simpl length in *; lia).
    rewrite Zle_Qle in Hvc. change (inject_Z 10) with 10%Q in Hvc.
    unfold py_max. change (inject_Z 3) with 3%Q.
    destruct (Qltb _ _); lra. }
  unfold adjudicate_evidence. now rewrite H1, H2, H3, H4, H5, Hedu.
Qed.

Lemma educational_outranks_content_witness :
  adjudicate_evidence
    (scored_only_bag
       [{| title := Some "nsfw"; description := Some "xxx"; tags := None |}]
       "Explicit tutorial: learn it the hard way") "c"
  = Ok (PInt 13, "EducationalContent", "Educational/instructional content detected").
Proof.
  apply educational_outranks_content.
  - vm_compute. intros [=].
  - simpl. lia.
Defined.

(** X20. Without educational vocabulary, one explicit keyword in the
    channel description decides. For a channel with no signal from the
    official and third-party sources whose report is not flagged as
    educational, a single explicit-adult keyword in the description gives the
    decision (18, ExplicitContent). *)
Theorem explicit_keyword_decides
    (videos : list video) (desc name : string) :
  (1 <= hits explicit_adult_keywords (lower desc))%Z ->
  analyze_content_maturity videos desc !! "is_educational_content" = Some (PBool false) ->
  adjudicate_evidence (scored_only_bag videos desc) name
  = Ok (PInt 18, "ExplicitContent", "Explicit adult content detected").
Proof.
  intros Hhits Hedu.
  destruct (scored_only_bag_sources videos desc) as (H1 & H2 & H3 & H4 & H5).
  assert (He : dict_get (scored_only_bag videos desc) "is_educational_content"
               = PBool false).
  { unfold dict_get, scored_only_bag.
    now rewrite (built_lookup_scored _ _ _ _ _ _ Hedu). }
  assert (Hx : dict_get (scored_only_bag videos desc) "is_explicit_adult_content"
               = PBool true).
  { unfold dict_get, scored_only_bag.
    destruct (analyze_flag_explicit videos desc) as [Hexp _]. cbv zeta in Hexp.
    rewrite (built_lookup_scored _ _ _ _ _ _ Hexp). cbn [default from_option id]. f_equal.
    apply orb_true_iff. left. apply Z.leb_le.
    pose proof (count_occurrences_closed_form ExplicitAdult videos desc) as Hc.
    cbn [count_of description_weight keywords] in Hc. rewrite Hc.
    pose proof (video_hits_nonneg explicit_adult_keywords videos). lia. }
  unfold adjudicate_evidence. now rewrite H1, H2, H3, H4, H5, He, Hx.
Qed.

Lemma explicit_keyword_decides_witness :
  adjudicate_evidence (scored_only_bag [] "NSFW clips every day") "c"
  = Ok (PInt 18, "ExplicitContent", "Explicit adult content detected").
Proof.
  apply explicit_keyword_decides.
  - vm_compute. intros [=].
  - rewrite analyze_flag_educational. vm_compute. reflexivity.
Defined.


(** ** Adjudicator: what it reads and what it returns *)

(** X22. A signal that holds shields the decision from ill-typed counts.
    When one of the eleven signals whose truth alone decides a rule holds,
    [adjudicate_evidence] returns a decision whatever is stored under the
    score and the counts, which it then never compares. *)
Theorem flag_signal_never_raises (e : gmap string pyval) (name k : string) :
  In k flag_keys ->
  truthy (dict_get e k) = true ->
  exists d : decision, adjudicate_evidence e name = Ok d.
Proof.
  intros Hk Ht. unfold adjudicate_evidence.
  repeat match goal with
         | |- context [if truthy ?v then _ else _] =>
             let H := fresh "Hf" in destruct (truthy v) eqn:H; [eauto|]
         end.
  exfalso. unfold flag_keys in Hk.
  repeat (destruct Hk as [<-|Hk]; [congruence|]). destruct Hk.
Qed.

Lemma flag_signal_never_raises_witness :
  exists d : decision,
    adjudicate_evidence
      (<["kidsafe" := PBool true]> (<["total_adult_content_score" := PStr "n/a"]> ∅)) "c"
    = Ok d.
Proof.
  apply (flag_signal_never_raises _ "c" "kidsafe").
  - simpl. tauto.
  - reflexivity.
Defined.

Lemma dict_get_insert_ne (e : gmap string pyval) (k k' : string) (v : pyval) :
  k <> k' -> dict_get (<[k := v]> e) k' = dict_get e k'.
Proof. intros H. unfold dict_get. now rewrite lookup_insert_ne. Qed.

Lemma dict_get_or_insert_ne (e : gmap string pyval) (k k' : string) (v d : pyval) :
  k <> k' -> dict_get_or (<[k := v]> e) k' d = dict_get_or e k' d.
Proof. intros H. unfold dict_get_or. now rewrite lookup_insert_ne. Qed.

(** X23. The decision depends on the eighteen keys that
    [adjudicate_evidence] reads and on nothing else: storing any value under
    another key, or removing another key, changes nothing. The scores
    [educational_score], [drama_score], [adult_personality_score] and
    [mature_themes_score] of the scorer's report are among the keys without
    influence. *)
Theorem other_keys_ignored (e : gmap string pyval) (name k : string) (v : pyval) :
  ~ In k adjudication_keys ->
  adjudicate_evidence (<[k := v]> e) name = adjudicate_evidence e name
  /\ adjudicate_evidence (delete k e) name = adjudicate_evidence e name.
Proof.
  intros Hk.
  assert (Hne : forall k', In k' adjudication_keys -> k <> k').
  { intros k' Hk' ->. contradiction. }
  split; unfold adjudicate_evidence, flag_and_ge.
  - rewrite !dict_get_insert_ne, !dict_get_or_insert_ne
      by (apply Hne; simpl; tauto).
    reflexivity.
  - rewrite !dict_get_delete_ne, !dict_get_or_delete_ne
      by (apply Hne; simpl; tauto).
    reflexivity.
Qed.

Lemma other_keys_ignored_witness :
  adjudicate_evidence (<["drama_score" := PInt 40]> conflicting_bag) "c"
  = adjudicate_evidence conflicting_bag "c"
  /\ adjudicate_evidence (delete "drama_score" conflicting_bag) "c"
     = adjudicate_evidence conflicting_bag "c".
Proof.
  apply other_keys_ignored.
  simpl. intros H. repeat (destruct H as [H|H]; [discriminate H|]). destruct H.
Defined.

Lemma adjudicate_age_cases
    (e : gmap string pyval) (name : string) (age : pyval) (label note : string) :
  adjudicate_evidence e name = Ok (age, label, note) ->
  In age [PInt 3; PInt 4; PInt 13; PInt 17; PInt 18]
  \/ (age = dict_get e "common_sense_age" /\ truthy age = true)
  \/ (age = dict_get e "video_board_max_age" /\ truthy age = true).
Proof.
  unfold adjudicate_evidence, flag_and_ge. unfold_result.
  repeat match goal with
         | |- context [if truthy ?v then _ else _] =>
             let H := fresh "Hf" in destruct (truthy v) eqn:H
         | |- context [match ?c with Ok _ => _ | Raise _ => _ end] =>
             destruct c as [[|]|]
         end;
    intros [= <- <- <-]; simpl; tauto.
Qed.

Lemma board_max_nonneg (ages : list Z) (m : Z) :
  Forall (fun a => 0 <= a)%Z ages -> board_max ages = PInt m -> (0 <= m)%Z.
Proof.
  intros Hpos. destruct ages as [|a rest]; [discriminate|]. intros [= <-].
  destruct (fold_max_bounds rest a) as [Hin _].
  rewrite Forall_forall in Hpos. apply Hpos. now apply list_elem_of_In.
Qed.

(** X24. Every row gets an age that is a whole number of at least 1.
    Whatever the gatherer calls returned, as long as the ages from Common
    Sense Media and the rating boards are not negative (they are read from
    strings of digits), the age that [adjudicate_evidence] returns for the bag
    of [enrich_dataset] is an integer, and it is 1 or more. *)
Theorem built_evidence_age_positive
    (made_for_kids : pyval) (restricted : bool) (board_ages : list Z)
    (resolved : bool) (csm : option Z) (kidsafe : bool)
    (videos : list video) (desc name : string) :
  Forall (fun a => 0 <= a)%Z board_ages ->
  (forall a, csm = Some a -> 0 <= a)%Z ->
  exists (age : Z) (label note : string),
    adjudicate_evidence
      (if resolved
       then build_evidence (Some (made_for_kids, restricted, board_ages)) csm kidsafe
              (Some (analyze_content_maturity videos desc))
       else build_evidence None csm kidsafe None)
      name = Ok (PInt age, label, note)
    /\ (1 <= age)%Z.
Proof.
  intros Hboard Hcsm.
  set (e := if resolved then _ else _).
  assert (Hwt : evidence_well_typed e).
  { subst e. destruct resolved.
    - apply (build_evidence_well_typed _ csm kidsafe (Some (videos, desc))).
    - apply (build_evidence_well_typed None csm kidsafe None). }
  destruct (adjudicate_returns e name Hwt) as [[[age label] note] Hd].
  assert (Hget_csm : dict_get e "common_sense_age" = from_option PInt PNone csm).
  { subst e. unfold dict_get, build_evidence. destruct resolved.
    - rewrite lookup_union_r by (apply analyze_no_source_keys; simpl; tauto).
      rewrite lookup_insert_ne by (intros [=]). now rewrite lookup_insert_eq.
    - rewrite lookup_insert_ne by (intros [=]). now rewrite lookup_insert_eq. }
  assert (Hget_board : dict_get e "video_board_max_age" = board_max board_ages
                       \/ dict_get e "video_board_max_age" = PNone).
  { subst e. unfold dict_get, build_evidence. destruct resolved.
    - left. rewrite lookup_union_r by (apply analyze_no_source_keys; simpl; tauto).
      repeat (rewrite lookup_insert_ne by (intros [=])). now rewrite lookup_insert_eq.
    - right. repeat (rewrite lookup_insert_ne by (intros [=])). now rewrite lookup_empty. }
  destruct (adjudicate_age_cases e name age label note Hd) as [Hfixed|[[-> Ht]|[-> Ht]]].
  - simpl in Hfixed.
    repeat (destruct Hfixed as [<-|Hfixed]; [eexists _, label, note; split; [exact Hd|lia]|]).
    destruct Hfixed.
  - rewrite Hget_csm in *. destruct csm as [a|]; [|discriminate].
    exists a, label, note. split; [exact Hd|].
    specialize (Hcsm a eq_refl). cbn in Ht. apply negb_true_iff, Z.eqb_neq in Ht. lia.
  - destruct Hget_board as [Hb|Hb]; rewrite Hb in *; [|discriminate].
    destruct (board_max board_ages) as [| |m| | | |] eqn:Hm; try discriminate.
    + destruct board_ages; discriminate.
    + exists m, label, note. split; [exact Hd|].
      pose proof (board_max_nonneg board_ages m Hboard Hm).
      cbn in Ht. apply negb_true_iff, Z.eqb_neq in Ht. lia.
    + destruct board_ages; discriminate.
    + destruct board_ages; discriminate.
    + destruct board_ages; discriminate.
    + destruct board_ages; discriminate.
Qed.

Lemma built_evidence_age_positive_witness :
  exists (age : Z) (label note : string),
    adjudicate_evidence
      (build_evidence (Some (PBool false, false, [0; 12]%Z)) (Some 0%Z) false
         (Some (analyze_content_maturity [] "")))
      "c" = Ok (PInt age, label, note)
    /\ (1 <= age)%Z.
Proof.
  apply (built_evidence_age_positive (PBool false) false [0; 12]%Z true (Some 0%Z) false
           [] "" "c").
  - repeat constructor; intros [=].
  - intros a [= <-]. lia.
Defined.

(** ** Bounds and empty results *)

Lemma hits_bounds (kws : list string) (text : string) :
  (0 <= hits kws text <= Z.of_nat (length kws))%Z.
Proof.
  unfold hits. split; [lia|]. apply inj_le.
  induction kws as [|kw kws IH]; simpl; [lia|].
  destruct (contains kw text); simpl; lia.
Qed.

Lemma video_hits_bounds (kws : list string) (videos : list video) :
  (0 <= video_hits kws videos <= Z.of_nat (length kws) * Z.of_nat (length videos))%Z.
Proof.
  induction videos as [|v videos IH]; simpl video_hits; simpl length; [lia|].
  pose proof (hits_bounds kws (video_text v)). nia.
Qed.

(** X25. The counts of the report are bounded by the size of the keyword
    sets. A keyword counts at most once per text, so the count of a category
    lies between 0 and the number of its keywords times the sum of its
    description weight and the number of videos; the adult content score is
    never negative. *)
Theorem report_counts_bounded (c : category) (videos : list video) (desc : string) :
  exists (n : Z) (score : Q),
    analyze_content_maturity videos desc !! count_key c = Some (PInt n)
    /\ (0 <= n <= Z.of_nat (length (keywords c))
                  * (description_weight c + Z.of_nat (length videos)))%Z
    /\ analyze_content_maturity videos desc !! "total_adult_content_score"
       = Some (PFloat score)
    /\ (0 <= score)%Q.
Proof.
  exists (count_of c (count_occurrences videos desc)),
         (adult_content_score (count_occurrences videos desc)).
  rewrite analyze_reports_count, analyze_reports_score.
  split; [reflexivity|]. split; [|split; [reflexivity|]].
  - rewrite count_occurrences_closed_form.
    pose proof (hits_bounds (keywords c) (lower desc)).
    pose proof (video_hits_bounds (keywords c) videos).
    assert (0 <= description_weight c)%Z by (destruct c; simpl; lia).
    nia.
  - unfold adult_content_score. rewrite Qred_correct.
    pose proof (count_occurrences_closed_form ExplicitAdult videos desc) as He.
    pose proof (count_occurrences_closed_form AdultLifestyle videos desc) as Ha.
    pose proof (count_occurrences_closed_form MatureThemes videos desc) as Hm.
    cbn [count_of description_weight keywords] in He, Ha, Hm.
    pose proof (hits_bounds explicit_adult_keywords (lower desc)).
    pose proof (hits_bounds adult_personality_keywords (lower desc)).
    pose proof (hits_bounds mature_themes_keywords (lower desc)).
    pose proof (video_hits_bounds explicit_adult_keywords videos).
    pose proof (video_hits_bounds adult_personality_keywords videos).
    pose proof (video_hits_bounds mature_themes_keywords videos).
    assert (Hc1 : (0 <= explicit_count (count_occurrences videos desc))%Z) by lia.
    assert (Hc2 : (0 <= adult_personality_count (count_occurrences videos desc))%Z) by lia.
    assert (Hc3 : (0 <= mature_themes_count (count_occurrences videos desc))%Z) by lia.
    rewrite Zle_Qle in Hc1, Hc2, Hc3. change (inject_Z 0) with 0%Q in *. lra.
Qed.

(** X26. A response without results is no error. For each of the five
    gatherer calls, a response object that has no [items] field, or an empty
    list under it, yields the call's default ([None], an empty dictionary or
    an empty list) and raises nothing. *)
Theorem empty_result_gives_default (c : sub_call) (res : list (string * pyval)) :
  ~ In "items" (map fst res) \/ assoc_get res "items" PNone = PList [] ->
  sub_call_extract c (PDict res) = Ok (sub_call_default c).
Proof.
  intros Hitems.
  assert (H1 : assoc_get res "items" (PList []) = PList []).
  { destruct Hitems as [Hno|Hempty]; [now apply assoc_get_missing|].
    revert Hempty. induction res as [|[k v] res IH]; [reflexivity|]. simpl.
    destruct (String.eqb k "items"); [auto|apply IH]. }
  assert (H2 : truthy (assoc_get res "items" PNone) = false).
  { destruct Hitems as [Hno|Hempty]; [now rewrite assoc_get_missing|now rewrite Hempty]. }
  destruct c; cbn [sub_call_extract sub_call_default];
    unfold first_channel_id, channel_status_of, channel_meta_of, video_ids_of,
      content_rating_of, py_get; unfold_result;
    rewrite ?H1, ?H2; reflexivity.
Qed.

Lemma empty_result_gives_default_witness :
  sub_call_extract (ListRecentVideos (PStr "UC1") 15)
    (PDict [("kind", PStr "youtube#searchListResponse"); ("items", PList [])])
  = Ok (PList []).
Proof.
  apply (empty_result_gives_default (ListRecentVideos (PStr "UC1") 15)).
  right. reflexivity.
Defined.

(** A [null] under [items] is another matter for [list_recent_videos],
    which iterates over it. *)
Example null_items_raise :
  sub_call_extract (ListRecentVideos (PStr "UC1") 15) (PDict [("items", PNone)])
  = Raise TypeError.
Proof. reflexivity. Qed.
